(** * Aerospace Thermal Fin Analyzer: the analytical solver and its worker

    A shallow embedding of [Aerospace_Thermal_Fin_Analyzer.py]:
    [FinParams], [solve_fin], [SolverThread] and the [FinUI] actions
    [on_run], [on_done], [on_failed], together with the parameter edits
    ([ParamDialog.apply], the preset callback of [open_presets]).

    Numbers.  The program computes in float64 (Python floats and numpy
    arrays).  The solver is embedded twice.  In [solve_fin] every float is
    a real number of [R] and every operation is the exact one: [np.sqrt] is
    [sqrt], [np.cosh] is [cosh], [np.tanh] is [tanh]; rounding, overflow,
    underflow, [inf] and [nan] are outside it.  In [solve_fin64] the numbers
    are binary64 floats with the IEEE operations of the kernel, and
    [np.cosh] and [np.tanh], which have no counterpart there, are
    parameters. *)

From Stdlib Require Import Floats Uint63.
From Stdlib Require Import Reals Lra Lia ZArith String Ascii Bool List.
From Stdlib Require Import DecimalString.
Import ListNotations.

Set Warnings "-inexact-float".

Local Open Scope R_scope.

(** ** Exceptions *)

(** The exceptions the modelled code can raise.  [ValueError] is a subclass
    of [Exception], so [except Exception] catches every value of this type. *)
Inductive PyExc : Type :=
| ValueError (msg : string).

(** A computation that returns a value or raises. *)
Definition Exc (A : Type) : Type := (PyExc + A)%type.

Definition ret {A} (a : A) : Exc A := inr a.
Definition raise {A} (e : PyExc) : Exc A := inl e.
Definition bind {A B} (c : Exc A) (f : A -> Exc B) : Exc B :=
  match c with
  | inl e => inl e
  | inr a => f a
  end.

Notation "x <- c ;; f" := (bind c (fun x => f))
  (at level 61, c at next level, right associativity).

(** ** Parameters (class [FinParams]) *)

Record FinParams : Type := mkFinParams {
  k : R;     (* W/(m K) *)
  h : R;     (* W/(m^2 K) *)
  t : R;     (* m, fin thickness *)
  b : R;     (* m, out-of-plane width *)
  L : R;     (* m, fin length *)
  Tb : R;    (* K, base temperature *)
  Tinf : R   (* K, ambient temperature *)
}.

(** [FinParams.__init__]: the defaults. *)
Definition FinParams_init : FinParams :=
  {| k := 15; h := 120; t := 3 / 1000; b := 10 / 1000; L := 3 / 100;
     Tb := 900; Tinf := 600 |}.

(** The invalid input of the specification: [t = 0]. *)
Definition params_t_zero : FinParams :=
  {| k := 15; h := 120; t := 0; b := 1 / 100; L := 3 / 100;
     Tb := 900; Tinf := 600 |}.

(** An invalid input of another kind: [k = 0]. *)
Definition params_k_zero : FinParams :=
  {| k := 0; h := 120; t := 3 / 1000; b := 1 / 100; L := 3 / 100;
     Tb := 900; Tinf := 600 |}.

(** ** numpy *)

(** The test [x <= 0] on floats, as a boolean. *)
Definition le0 (x : R) : bool := if Rle_dec x 0 then true else false.

(** [np.arange(0, num)] as reals: [0, 1, ..., num-1]. *)
Definition arange (num : nat) : list R := map INR (seq 0 num).

(** [y[-1] = v]: overwrite the last element of a non-empty array. *)
Fixpoint set_last (y : list R) (v : R) : list R :=
  match y with
  | [] => []
  | [_] => [v]
  | a :: rest => a :: set_last rest v
  end.

Definition string_of_Z (n : Z) : string := NilZero.string_of_int (Z.to_int n).

(** [np.linspace(start, stop, num)] with the default [endpoint=True]:
    a negative [num] raises; otherwise [step = (stop - start) / (num - 1)],
    the samples are [i * step + start], and for [num > 1] the last sample is
    overwritten with [stop].  For [num <= 1] numpy multiplies [arange] by
    [stop - start] instead of a step. *)
Definition linspace (start stop : R) (num : Z) : Exc (list R) :=
  if (num <? 0)%Z then
    raise (ValueError ("Number of samples, " ++ string_of_Z num
                       ++ ", must be non-negative."))
  else
    let div := (num - 1)%Z in
    let delta := stop - start in
    let y := arange (Z.to_nat num) in
    let y := if (0 <? div)%Z
             then let step := delta / IZR div in map (fun v => v * step) y
             else map (fun v => v * delta) y in
    let y := map (fun v => v + start) y in
    ret (if (1 <? num)%Z then set_last y stop else y).

(** ** The solver *)

(** A [dict] from names to floats: the entries in insertion order. *)
Definition Dict : Type := list (string * R).

(** [d[key]]. *)
Fixpoint lookup (key : string) (d : Dict) : option R :=
  match d with
  | [] => None
  | (key', v) :: rest => if String.eqb key key' then Some v else lookup key rest
  end.

(** The [dict] of metrics that [solve_fin] returns. *)
Definition Metrics : Type := Dict.

Definition SolveResult : Type := (list R * list R * Metrics)%type.

Definition solve_fin (p : FinParams) (npts : Z) : Exc SolveResult :=
  let A_c := t p * b p in
  let P := 2 * (t p + b p) in
  if le0 A_c || le0 P || le0 (k p) || le0 (h p) || le0 (L p) then
    raise (ValueError "Parametry muszą być > 0.")
  else
    let m := sqrt (h p * P / (k p * A_c)) in
    let theta_b := Tb p - Tinf p in
    x <- linspace 0 (L p) npts ;;
    let theta := map (fun xi => theta_b * cosh (m * (L p - xi)) / cosh (m * L p)) x in
    let T := map (fun th => Tinf p + th) theta in
    let Q_f := k p * A_c * m * theta_b * tanh (m * L p) in
    let eta := tanh (m * L p) / (m * L p) in
    let eps := (k p * m / h p) * tanh (m * L p) in
    ret (x, T, [("m", m); ("Q", Q_f); ("eta", eta); ("eps", eps);
                ("Ac", A_c); ("P", P)]%string).

(** The default sample count of [solve_fin]. *)
Definition npts_default : Z := 300.


(** ** Properties of sequences used in the statements *)

(** Each element is at least the next one. *)
Definition nonincreasing (l : list R) : Prop :=
  forall i, (S i < length l)%nat -> nth (S i) l 0 <= nth i l 0.


(** The quantities of the closed-form solution: cross-section, perimeter,
    fin parameter and excess base temperature. *)
Definition fin_Ac (p : FinParams) : R := t p * b p.
Definition fin_P (p : FinParams) : R := 2 * (t p + b p).
Definition fin_m (p : FinParams) : R := sqrt (h p * fin_P p / (k p * fin_Ac p)).
Definition fin_theta_b (p : FinParams) : R := Tb p - Tinf p.

(** [k, h, t, b, L > 0]. *)
Definition positive_params (p : FinParams) : Prop :=
  0 < k p /\ 0 < h p /\ 0 < t p /\ 0 < b p /\ 0 < L p.

(** ** The application state

    Python objects are shared by reference.  The [FinParams] objects live in
    a store indexed by address, the [SolverThread] objects in a table; the
    fields [params], [st_params] and [_worker] hold addresses. *)

Inductive ThreadState : Type := NotStarted | Running | Finished.

(** class [SolverThread]: [st_params] is its attribute [params]. *)
Record SolverThread : Type := mkSolverThread {
  st_params : nat;
  st_state : ThreadState
}.

(** What the signals [done] and [failed] of a [SolverThread] carry. *)
Inductive Signal : Type :=
| done (payload : SolveResult)
| failed (err : string).

Inductive QMessageBox : Type :=
| information (title text : string)
| warning (title text : string)
| critical (title text : string).

(** [self._last]: [(x, T, metrics, dict of the seven parameters)]. *)
Definition Snapshot : Type := (list R * list R * Metrics * Dict)%type.

Record State : Type := mkState {
  objs : nat -> FinParams;          (* the FinParams objects, by address *)
  threads : list SolverThread;      (* the SolverThread objects, by address *)
  params : nat;                     (* FinUI.params *)
  _worker : option nat;             (* FinUI._worker *)
  _last : option Snapshot;          (* FinUI._last *)
  canvas : option (list R * list R);(* the curve FinCanvas shows *)
  queue : list Signal;              (* signals emitted, not yet delivered *)
  boxes : list QMessageBox          (* message boxes shown, oldest first *)
}.

Definition set_objs (o : nat -> FinParams) (w : State) : State :=
  mkState o (threads w) (params w) (_worker w) (_last w) (canvas w) (queue w) (boxes w).
Definition set_threads (ts : list SolverThread) (w : State) : State :=
  mkState (objs w) ts (params w) (_worker w) (_last w) (canvas w) (queue w) (boxes w).
Definition set_worker (r : option nat) (w : State) : State :=
  mkState (objs w) (threads w) (params w) r (_last w) (canvas w) (queue w) (boxes w).
Definition set_last_result (s : option Snapshot) (w : State) : State :=
  mkState (objs w) (threads w) (params w) (_worker w) s (canvas w) (queue w) (boxes w).
Definition set_canvas (c : option (list R * list R)) (w : State) : State :=
  mkState (objs w) (threads w) (params w) (_worker w) (_last w) c (queue w) (boxes w).
Definition set_queue (q : list Signal) (w : State) : State :=
  mkState (objs w) (threads w) (params w) (_worker w) (_last w) (canvas w) q (boxes w).
Definition show (m : QMessageBox) (w : State) : State :=
  mkState (objs w) (threads w) (params w) (_worker w) (_last w) (canvas w) (queue w)
          (boxes w ++ [m]).

(** [FinUI.__init__]: one [FinParams] object, at address 0. *)
Definition FinUI_init : State :=
  {| objs := fun _ => FinParams_init; threads := []; params := 0%nat;
     _worker := None; _last := None; canvas := None; queue := []; boxes := [] |}.

(** Writing the object at address [a]. *)
Definition store (a : nat) (p : FinParams) (w : State) : State :=
  set_objs (fun a' => if Nat.eqb a' a then p else objs w a') w.

(** Overwriting the thread at address [i]. *)
Fixpoint update_thread (i : nat) (th : SolverThread) (ts : list SolverThread)
  : list SolverThread :=
  match ts, i with
  | [], _ => []
  | _ :: rest, O => th :: rest
  | a :: rest, S i' => a :: update_thread i' th rest
  end.

(** ** Stateful code that can raise *)

Definition M (A : Type) : Type := State -> Exc A * State.

Definition mret {A} (a : A) : M A := fun w => (inr a, w).
Definition mbind {A B} (c : M A) (f : A -> M B) : M B :=
  fun w => match c w with
           | (inl e, w') => (inl e, w')
           | (inr a, w') => f a w'
           end.
Definition lift {A} (c : Exc A) : M A := fun w => (c, w).
Definition deref (a : nat) : M FinParams := fun w => (inr (objs w a), w).
Definition modify (f : State -> State) : M unit := fun w => (inr tt, f w).

(** [try: body / except Exception as e: handler e]. *)
Definition try_except {A} (body : M A) (handler : PyExc -> M A) : M A :=
  fun w => match body w with
           | (inl e, w') => handler e w'
           | (inr a, w') => (inr a, w')
           end.

Notation "x <-- c ;;; f" := (mbind c (fun x => f))
  (at level 61, c at next level, right associativity).

(** [signal.emit(payload)] from the worker thread: the call of the connected
    slot is queued for the thread of the [FinUI]. *)
Definition emit (s : Signal) : M unit :=
  modify (fun w => set_queue (queue w ++ [s]) w).

(** ** The worker (class [SolverThread])

    [traceback.format_exc()] is a parameter: its text depends on file names
    and line numbers. *)

Definition SolverThread_run (format_exc : PyExc -> string) (self : SolverThread)
  : M unit :=
  try_except
    (p <-- deref (st_params self) ;;;
     r <-- lift (solve_fin p npts_default) ;;;
     emit (done r))
    (fun e => emit (failed (format_exc e))).

Definition isRunning (th : SolverThread) : bool :=
  match st_state th with
  | Running => true
  | _ => false
  end.

(** The started thread at address [i] executes [run] to its end, in one
    step, and is finished.  A thread that is not running does nothing.
    [inl e] is an exception that leaves [run].  The step reads the
    parameters once: an edit of the parameters by the [FinUI] thread is
    either before the whole of [run] or after it.  Edits that land between
    two attribute reads of [solve_fin] are not modelled. *)
Definition thread_step (format_exc : PyExc -> string) (i : nat) (w : State)
  : Exc State :=
  match nth_error (threads w) i with
  | Some th =>
      if isRunning th then
        match SolverThread_run format_exc th w with
        | (inr _, w') =>
            inr (set_threads
                   (update_thread i (mkSolverThread (st_params th) Finished)
                                  (threads w')) w')
        | (inl e, _) => inl e
        end
      else inr w
  | None => inr w
  end.

(** ** The actions of [FinUI] *)

(** [self._worker and self._worker.isRunning()]. *)
Definition worker_running (w : State) : bool :=
  match _worker w with
  | Some i => match nth_error (threads w) i with
              | Some th => isRunning th
              | None => false
              end
  | None => false
  end.

Definition on_run (w : State) : State :=
  if worker_running w then
    show (information "Fin Designer" "Solver już pracuje.") w
  else
    (* SolverThread(self.params) *)
    let i := length (threads w) in
    let w := set_threads (threads w ++ [mkSolverThread (params w) NotStarted]) w in
    let w := set_worker (Some i) w in
    (* self._worker.start() *)
    set_threads (update_thread i (mkSolverThread (params w) Running) (threads w)) w.

(** [dict(k=self.params.k, h=self.params.h, ...)]. *)
Definition params_dict (p : FinParams) : Dict :=
  [("k", k p); ("h", h p); ("t", t p); ("b", b p); ("L", L p);
   ("Tb", Tb p); ("Tinf", Tinf p)]%string.

(** The four result labels, which [on_done] fills and [on_clear] resets,
    are formatted floats and are left out. *)
Definition on_done (payload : SolveResult) (w : State) : State :=
  let '(x, T, M) := payload in
  let w := set_last_result (Some (x, T, M, params_dict (objs w (params w)))) w in
  set_canvas (Some (x, T)) w.

Definition on_failed (err : string) (w : State) : State :=
  show (critical "Solver error" err) w.

Definition on_clear (w : State) : State := set_canvas None w.

(** The event loop of the [FinUI] thread delivers the oldest queued signal
    to the slot connected in [on_run]. *)
Definition deliver (w : State) : State :=
  match queue w with
  | [] => w
  | done payload :: rest => on_done payload (set_queue rest w)
  | failed err :: rest => on_failed err (set_queue rest w)
  end.

(** ** Editing the parameters *)

(** [setattr(p, name, v)] on the seven attributes of a [FinParams]. *)
Definition setattr (p : FinParams) (name : string) (v : R) : FinParams :=
  if String.eqb name "k" then mkFinParams v (h p) (t p) (b p) (L p) (Tb p) (Tinf p)
  else if String.eqb name "h" then mkFinParams (k p) v (t p) (b p) (L p) (Tb p) (Tinf p)
  else if String.eqb name "t" then mkFinParams (k p) (h p) v (b p) (L p) (Tb p) (Tinf p)
  else if String.eqb name "b" then mkFinParams (k p) (h p) (t p) v (L p) (Tb p) (Tinf p)
  else if String.eqb name "L" then mkFinParams (k p) (h p) (t p) (b p) v (Tb p) (Tinf p)
  else if String.eqb name "Tb" then mkFinParams (k p) (h p) (t p) (b p) (L p) v (Tinf p)
  else if String.eqb name "Tinf" then mkFinParams (k p) (h p) (t p) (b p) (L p) (Tb p) v
  else p.

(** The callback of [open_presets]:
    [for k, v in changes.items(): setattr(self.params, k, v)]. *)
Fixpoint apply_cb (changes : Dict) (w : State) : State :=
  match changes with
  | [] => w
  | (name, v) :: rest =>
      apply_cb rest (store (params w) (setattr (objs w (params w)) name v) w)
  end.

(** The same loop on a value: the object after the edits. *)
Definition apply_changes (changes : Dict) (p : FinParams) : FinParams :=
  fold_left (fun q kv => setattr q (fst kv) (snd kv)) changes p.

(** The presets of [PresetDialog]. *)
Definition preset_high_convection : Dict := [("h", 300); ("t", 2 / 1000)]%string.
Definition preset_thick_fin : Dict := [("t", 5 / 1000); ("L", 50 / 1000)]%string.
Definition preset_cool_ambient : Dict := [("Tinf", 500); ("Tb", 1000)]%string.

(** [ParamDialog.apply] on the dialog of [open_params], whose [_p] is
    [self.params]; the arguments are the seven parsed texts, taken to be
    finite numbers ([R] has no [nan] and no [inf], which [float] can also
    return). *)
Definition ParamDialog_apply (vk vh vt vb vL vTb vTinf : R) : M bool :=
  try_except
    (p <-- (fun w => (inr (params w), w)) ;;;
     _ <-- modify (store p (mkFinParams vk vh vt vb vL vTb vTinf)) ;;;
     if le0 (Rmin vk (Rmin vh (Rmin vt (Rmin vb vL)))) then
       lift (raise (ValueError "Wszystkie wartości muszą być > 0."))
     else mret true)
    (fun e =>
       let 'ValueError msg := e in
       _ <-- modify (show (warning "Input error"
                             ("Check inputs." ++ String (ascii_of_nat 10)
                                (String (ascii_of_nat 10) msg)))) ;;;
       mret false).

(** ** Runs of the application

    The user's actions and the two things that happen on their own: the
    started thread at some address runs, the event loop delivers a queued
    signal.  The thread of the [FinUI] executes one handler at a time. *)

Inductive Action : Type :=
| RUN
| PRESETS (changes : Dict)
| PARAMETERS (vk vh vt vb vL vTb vTinf : R)
| CLEAR
| THREAD (i : nat)
| DELIVER.

Definition step (format_exc : PyExc -> string) (a : Action) (w : State)
  : Exc State :=
  match a with
  | RUN => ret (on_run w)
  | PRESETS changes => ret (apply_cb changes w)
  | PARAMETERS vk vh vt vb vL vTb vTinf =>
      match ParamDialog_apply vk vh vt vb vL vTb vTinf w with
      | (inr _, w') => ret w'
      | (inl e, _) => raise e
      end
  | CLEAR => ret (on_clear w)
  | THREAD i => thread_step format_exc i w
  | DELIVER => ret (deliver w)
  end.

Fixpoint steps (format_exc : PyExc -> string) (acts : list Action) (w : State)
  : Exc State :=
  match acts with
  | [] => ret w
  | a :: rest => w' <- step format_exc a w ;; steps format_exc rest w'
  end.

(** The states the application can be in. *)
Definition reachable (format_exc : PyExc -> string) (w : State) : Prop :=
  exists acts, steps format_exc acts FinUI_init = inr w.

(** The threads that are running. *)
Definition running_threads (w : State) : list SolverThread :=
  filter isRunning (threads w).

(** Every running thread is the one [_worker] refers to. *)
Definition only_worker_runs (w : State) : Prop :=
  forall i th, nth_error (threads w) i = Some th -> isRunning th = true ->
               _worker w = Some i.

(** A sample [traceback.format_exc]: the last line of a traceback. *)
Definition format_exc_last_line (e : PyExc) : string :=
  let 'ValueError msg := e in ("ValueError: " ++ msg)%string.

(** ** The texts of the parameter dialog

    [ParamDialog.apply] reads the seven line edits in turn,
    [p.k = float(...); p.h = float(...); ...], each assignment writing the
    shared object at once.  [float] on a text is a parameter: it returns the
    number or raises a [ValueError].  The texts that [float] turns into
    [nan] or [inf] are outside this model. *)

Fixpoint assign_texts (float_of : string -> Exc R) (a : nat)
  (fields : list (string * string)) : M unit :=
  match fields with
  | [] => mret tt
  | (name, txt) :: rest =>
      v <-- lift (float_of txt) ;;;
      _ <-- modify (fun w => store a (setattr (objs w a) name v) w) ;;;
      assign_texts float_of a rest
  end.

Definition ParamDialog_apply_texts (float_of : string -> Exc R)
  (sk sh st sb sL sTb sTinf : string) : M bool :=
  try_except
    (p <-- (fun w => (inr (params w), w)) ;;;
     _ <-- assign_texts float_of p
             [("k", sk); ("h", sh); ("t", st); ("b", sb); ("L", sL);
              ("Tb", sTb); ("Tinf", sTinf)]%string ;;;
     q <-- deref p ;;;
     if le0 (Rmin (k q) (Rmin (h q) (Rmin (t q) (Rmin (b q) (L q))))) then
       lift (raise (ValueError "Wszystkie wartości muszą być > 0."))
     else mret true)
    (fun e =>
       let 'ValueError msg := e in
       _ <-- modify (show (warning "Input error"
                             ("Check inputs." ++ String (ascii_of_nat 10)
                                (String (ascii_of_nat 10) msg)))) ;;;
       mret false).

(** The numbers of the texts that [float] accepts, up to the first text it
    rejects. *)
Fixpoint parsed_prefix (float_of : string -> Exc R)
  (fields : list (string * string)) : Dict :=
  match fields with
  | [] => []
  | (name, txt) :: rest =>
      match float_of txt with
      | inr v => (name, v) :: parsed_prefix float_of rest
      | inl _ => []
      end
  end.

(** The first error of [float] on the texts, if any. *)
Fixpoint first_error (float_of : string -> Exc R)
  (fields : list (string * string)) : option PyExc :=
  match fields with
  | [] => None
  | (_, txt) :: rest =>
      match float_of txt with
      | inr _ => first_error float_of rest
      | inl e => Some e
      end
  end.

(** ** Export

    The file system is outside the model: an export yields the path and
    what is handed to the writer.  [path] is the answer of the file dialog,
    empty when the user cancels. *)

(** A cell given to [csv.writer.writerow]. *)
Inductive Cell : Type :=
| text (s : string)
| number (v : R)
| mapping (d : Dict).

(** [d[key]] on a missing key. *)
Inductive KeyError : Type :=
| mkKeyError (key : string).

Definition getitem (key : string) (d : Dict) : KeyError + R :=
  match lookup key d with
  | Some v => inr v
  | None => inl (mkKeyError key)
  end.

(** The rows written for a snapshot, and the [KeyError] that stopped the
    writing, if any. *)
Definition csv_rows (s : Snapshot) : list (list Cell) * option KeyError :=
  let '(x, T, M, P) := s in
  let r1 := [text "# params"; mapping P] in
  match getitem "m" M with
  | inl e => ([r1], Some e)
  | inr vm =>
      let r2 := [text "# m [1/m]"; number vm] in
      match getitem "Q" M with
      | inl e => ([r1; r2], Some e)
      | inr vQ =>
          let r3 := [text "# Q [W]"; number vQ] in
          match getitem "eta" M with
          | inl e => ([r1; r2; r3], Some e)
          | inr veta =>
              let r4 := [text "# eta [-]"; number veta] in
              match getitem "eps" M with
              | inl e => ([r1; r2; r3; r4], Some e)
              | inr veps =>
                  let r5 := [text "# eps [-]"; number veps] in
                  let r6 := [text "x [m]"; text "T [K]"] in
                  ([r1; r2; r3; r4; r5; r6]
                     ++ map (fun xT => [number (fst xT); number (snd xT)])
                            (combine x T),
                   None)
              end
          end
      end
  end.

Inductive FileContent : Type :=
| csv_file (rows : list (list Cell))
| png_file (x T : list R).

Definition is_empty (s : string) : bool :=
  match s with
  | EmptyString => true
  | _ => false
  end.

Definition on_export_png (path : string) (w : State)
  : State * option (string * FileContent) :=
  match _last w with
  | None => (show (information "Export" "Brak wyników do eksportu.") w, None)
  | Some (x, T, _, _) =>
      if is_empty path then (w, None)
      else (w, Some (path, png_file x T))
  end.

Definition on_export_csv (path : string) (w : State)
  : State * option (string * FileContent) * option KeyError :=
  match _last w with
  | None =>
      (show (information "Export" "Brak wyników do eksportu.") w, None, None)
  | Some snapshot =>
      if is_empty path then (w, None, None)
      else
        let '(rows, err) := csv_rows snapshot in
        (w, Some (path, csv_file rows), err)
  end.

(** ** Invariants of the runs *)

(** A result that [solve_fin] returned for some parameters and the default
    count. *)
Definition solved (r : SolveResult) : Prop :=
  exists p, solve_fin p npts_default = inr r.

(** Every queued and every stored result comes from [solve_fin], and the
    canvas shows the curve of the stored result. *)
Definition results_solved (w : State) : Prop :=
  (forall r, In (done r) (queue w) -> solved r) /\
  (forall x T M P, _last w = Some (x, T, M, P) -> solved (x, T, M)) /\
  (forall x T, canvas w = Some (x, T) ->
               exists M P, _last w = Some (x, T, M, P)).

(** There is one [FinParams] object, shared by the [FinUI] and all threads;
    the worker is the thread created last. *)
Definition thread_table_ok (w : State) : Prop :=
  params w = 0%nat /\
  (forall th, In th (threads w) ->
              st_params th = 0%nat /\ st_state th <> NotStarted) /\
  match _worker w with
  | None => threads w = []
  | Some i => S i = length (threads w)
  end.

(** ** The solver in float64

    Lines 43-59 on binary64 floats.  Python's [float] operations and numpy's
    are the IEEE ones, except that Python's [/] raises [ZeroDivisionError]
    on a zero divisor (line 49, where both operands are Python floats),
    while numpy's gives [inf] or [nan]. *)

Record FinParams64 : Type := mkFinParams64 {
  k64 : float;
  h64 : float;
  t64 : float;
  b64 : float;
  L64 : float;
  Tb64 : float;
  Tinf64 : float
}.

(** [FinParams.__init__]. *)
Definition FinParams64_init : FinParams64 :=
  {| k64 := 15.0; h64 := 120.0; t64 := 0.003; b64 := 0.010; L64 := 0.03;
     Tb64 := 900.0; Tinf64 := 600.0 |}%float.

(** The defaults with a fin of 10 m: [m * L] is about 832.67. *)
Definition params64_long : FinParams64 :=
  {| k64 := 15.0; h64 := 120.0; t64 := 0.003; b64 := 0.010; L64 := 10.0;
     Tb64 := 900.0; Tinf64 := 600.0 |}%float.

(** Positive parameters for which [h * P] exceeds the largest float. *)
Definition params64_huge_h : FinParams64 :=
  {| k64 := 15.0; h64 := 1e308; t64 := 10.0; b64 := 10.0; L64 := 0.03;
     Tb64 := 900.0; Tinf64 := 600.0 |}%float.

(** What lines 43-59 can raise. *)
Inductive PyExc64 : Type :=
| ValueError64 (msg : string)
| ZeroDivisionError64 (msg : string).

Definition float_of_Z (z : Z) : float := PrimFloat.of_uint63 (Uint63.of_Z z).

(** [np.arange(0, num)] in float64. *)
Definition arange64 (num : nat) : list float :=
  map (fun i => float_of_Z (Z.of_nat i)) (seq 0 num).

Fixpoint replace_last {A : Type} (y : list A) (v : A) : list A :=
  match y with
  | [] => []
  | [_] => [v]
  | a :: rest => a :: replace_last rest v
  end.

(** [np.linspace(start, stop, num)] in float64, as numpy computes it:
    [step = delta / div], and [y / div * delta] instead of [y * step] when
    the step is zero. *)
Definition linspace64 (start stop : float) (num : Z) : PyExc64 + list float :=
  if (num <? 0)%Z then
    inl (ValueError64 ("Number of samples, " ++ string_of_Z num
                       ++ ", must be non-negative."))
  else
    let div := (num - 1)%Z in
    let delta := (stop - start)%float in
    let y := arange64 (Z.to_nat num) in
    let y := if (0 <? div)%Z then
               let step := (delta / float_of_Z div)%float in
               if (step =? 0)%float
               then map (fun v => v / float_of_Z div * delta)%float y
               else map (fun v => v * step)%float y
             else map (fun v => v * delta)%float y in
    let y := map (fun v => v + start)%float y in
    inr (if (1 <? num)%Z then replace_last y stop else y).

Definition Dict64 : Type := list (string * float).

Fixpoint lookup64 (key : string) (d : Dict64) : option float :=
  match d with
  | [] => None
  | (key', v) :: rest =>
      if String.eqb key key' then Some v else lookup64 key rest
  end.

Definition solve_fin64 (np_cosh np_tanh : float -> float)
  (p : FinParams64) (npts : Z)
  : PyExc64 + (list float * list float * Dict64) :=
  let A_c := (t64 p * b64 p)%float in
  let P := (2.0 * (t64 p + b64 p))%float in
  if (A_c <=? 0)%float || (P <=? 0)%float || (k64 p <=? 0)%float
     || (h64 p <=? 0)%float || (L64 p <=? 0)%float then
    inl (ValueError64 "Parametry muszą być > 0.")
  else
    let num := (h64 p * P)%float in
    let den := (k64 p * A_c)%float in
    if (den =? 0)%float then
      inl (ZeroDivisionError64 "float division by zero")
    else
      let m := PrimFloat.sqrt (num / den) in
      let theta_b := (Tb64 p - Tinf64 p)%float in
      match linspace64 0%float (L64 p) npts with
      | inl e => inl e
      | inr x =>
          let theta :=
            map (fun xi => theta_b * np_cosh (m * (L64 p - xi))
                           / np_cosh (m * L64 p))%float x in
          let T := map (fun th => Tinf64 p + th)%float theta in
          let Q_f := (k64 p * A_c * m * theta_b * np_tanh (m * L64 p))%float in
          let eta := (np_tanh (m * L64 p) / (m * L64 p))%float in
          let eps := ((k64 p * m / h64 p) * np_tanh (m * L64 p))%float in
          inr (x, T, [("m", m); ("Q", Q_f); ("eta", eta); ("eps", eps);
                      ("Ac", A_c); ("P", P)]%string)
      end.

(** Two functions that have the one feature of [np.cosh] and of [np.tanh]
    that the overflow statements use, and are otherwise arbitrary:
    [infinity] from 711 on, and the limit 1 at [infinity]. *)
Definition cosh_overflow_only (x : float) : float :=
  if (711 <=? x)%float then infinity else 1%float.
Definition tanh_limit_only (x : float) : float :=
  if (x =? infinity)%float then 1%float else 0%float.

(** ** Facts on arrays *)

Section Arrays.

Lemma set_last_length (y : list R) (v : R) :
  length (set_last y v) = length y.
Proof.
  induction y as [|a [|a' rest] IH]; simpl in *; auto.
Qed.

Lemma set_last_nth (y : list R) (v d : R) (i : nat) :
  (i < length y)%nat ->
  nth i (set_last y v) d = if Nat.eqb (S i) (length y) then v else nth i y d.
Proof.
  revert i.
  induction y as [|a [|a' rest] IH]; intros i Hi.
  - simpl in Hi; lia.
  - simpl in Hi. assert (i = 0%nat) by lia. subst i. reflexivity.
  - change (set_last (a :: a' :: rest) v) with (a :: set_last (a' :: rest) v).
    destruct i as [|i].
    + reflexivity.
    + change (nth (S i) (a :: set_last (a' :: rest) v) d)
        with (nth i (set_last (a' :: rest) v) d).
      rewrite IH by (simpl in *; lia).
      reflexivity.
Qed.

Lemma nth_map_in {A : Type} (f : A -> R) (l : list A) (i : nat) (d : R) (d' : A) :
  (i < length l)%nat -> nth i (map f l) d = f (nth i l d').
Proof.
  intro Hi.
  rewrite (nth_indep (map f l) d (f d')) by (rewrite length_map; exact Hi).
  apply map_nth.
Qed.

Lemma arange_length (num : nat) : length (arange num) = num.
Proof. unfold arange. rewrite length_map, length_seq. reflexivity. Qed.

Lemma arange_nth (num i : nat) (d : R) :
  (i < num)%nat -> nth i (arange num) d = INR i.
Proof.
  intro Hi. unfold arange.
  rewrite (nth_map_in INR (seq 0 num) i d 0%nat) by (rewrite length_seq; exact Hi).
  rewrite seq_nth by exact Hi. reflexivity.
Qed.

End Arrays.

(** ** Facts on [linspace] *)

Section Linspace.

Variables start stop : R.

Lemma linspace_negative (num : Z) :
  (num < 0)%Z -> exists msg, linspace start stop num = inl (ValueError msg).
Proof.
  intro Hn. unfold linspace.
  destruct (Z.ltb_spec num 0) as [_|Hge]; [|lia].
  eexists. reflexivity.
Qed.

Lemma linspace_returns (num : Z) :
  (0 <= num)%Z ->
  exists x, linspace start stop num = inr x /\ length x = Z.to_nat num.
Proof.
  intro Hn. unfold linspace.
  destruct (Z.ltb_spec num 0) as [Hlt|_]; [lia|].
  eexists. split; [reflexivity|].
  assert (Hlen : forall f g : R -> R,
             length (map f (map g (arange (Z.to_nat num)))) = Z.to_nat num)
    by (intros; rewrite !length_map; apply arange_length).
  destruct (1 <? num)%Z; [rewrite set_last_length|];
    destruct (0 <? num - 1)%Z; apply Hlen.
Qed.

(** For [num >= 2] the samples are [start + i * step], the last one being
    [stop] itself. *)
Lemma linspace_nth (num : Z) (x : list R) (i : nat) :
  (2 <= num)%Z ->
  linspace start stop num = inr x ->
  (i < Z.to_nat num)%nat ->
  nth i x 0 = start + INR i * ((stop - start) / IZR (num - 1)).
Proof.
  intros Hn Hx Hi. unfold linspace in Hx.
  destruct (Z.ltb_spec num 0) as [Hlt|_]; [lia|].
  destruct (Z.ltb_spec 0 (num - 1)) as [_|Hle]; [|lia].
  destruct (Z.ltb_spec 1 num) as [_|Hle]; [|lia].
  injection Hx as <-.
  set (step := (stop - start) / IZR (num - 1)).
  set (y := map (fun v => v + start) (map (fun v => v * step) (arange (Z.to_nat num)))).
  assert (Hlen : length y = Z.to_nat num)
    by (unfold y; rewrite !length_map; apply arange_length).
  assert (Hy : nth i y 0 = start + INR i * step).
  { unfold y.
    rewrite (nth_map_in _ _ i 0 0) by (rewrite length_map, arange_length; exact Hi).
    rewrite (nth_map_in _ _ i 0 0) by (rewrite arange_length; exact Hi).
    rewrite arange_nth by exact Hi. ring. }
  rewrite set_last_nth by (rewrite Hlen; exact Hi).
  rewrite Hlen.
  destruct (Nat.eqb_spec (S i) (Z.to_nat num)) as [Hlast|_]; [|exact Hy].
  assert (Hnum : IZR (num - 1) = INR i).
  { rewrite INR_IZR_INZ. f_equal. lia. }
  assert (Hpos : 0 < INR i).
  { rewrite <- Hnum. apply IZR_lt. lia. }
  unfold step. rewrite Hnum. field. lra.
Qed.

End Linspace.

(** ** Facts on the hyperbolic functions *)

Section Hyperbolic.

Lemma cosh_pos (x : R) : 0 < cosh x.
Proof.
  unfold cosh.
  pose proof (exp_pos x). pose proof (exp_pos (- x)). lra.
Qed.

Lemma sinh_pos (x : R) : 0 < x -> 0 < sinh x.
Proof.
  intro Hx. rewrite <- sinh_0. apply sinh_lt. exact Hx.
Qed.

(** [cosh] grows on the non-negative half line. *)
Lemma cosh_incr (x y : R) : 0 <= x -> x <= y -> cosh x <= cosh y.
Proof.
  intros Hx [Hlt|Heq]; [|subst; lra].
  destruct (MVT_cor2 cosh sinh x y Hlt) as [c [Hc [Hxc Hcy]]].
  - intros; apply derivable_pt_lim_cosh.
  - assert (0 < sinh c) by (apply sinh_pos; lra).
    assert (0 < sinh c * (y - x)) by (apply Rmult_lt_0_compat; lra).
    lra.
Qed.

(** [sinh y <= y * cosh y] for [y >= 0]. *)
Lemma sinh_le_mul_cosh (y : R) : 0 <= y -> sinh y <= y * cosh y.
Proof.
  intros [Hlt|Heq]; [|subst; rewrite sinh_0; lra].
  destruct (MVT_cor2 sinh cosh 0 y Hlt) as [c [Hc [H0c Hcy]]].
  - intros; apply derivable_pt_lim_sinh.
  - rewrite sinh_0 in Hc.
    assert (Hcc : cosh c <= cosh y) by (apply cosh_incr; lra).
    assert (cosh c * (y - 0) <= cosh y * (y - 0))
      by (apply Rmult_le_compat_r; lra).
    lra.
Qed.

Lemma tanh_pos (y : R) : 0 < y -> 0 < tanh y.
Proof.
  intro Hy. unfold tanh.
  apply Rdiv_lt_0_compat; [apply sinh_pos; exact Hy | apply cosh_pos].
Qed.

Lemma tanh_le_id (y : R) : 0 <= y -> tanh y <= y.
Proof.
  intro Hy. unfold tanh.
  pose proof (cosh_pos y) as Hc.
  pose proof (sinh_le_mul_cosh y Hy) as Hs.
  apply (Rmult_le_reg_r (cosh y)); [exact Hc|].
  unfold Rdiv. rewrite Rmult_assoc, Rinv_l by lra. lra.
Qed.

End Hyperbolic.

(** ** Facts on [solve_fin] *)

Section Solver.

Variable p : FinParams.

Lemma le0_true (x : R) : le0 x = true <-> x <= 0.
Proof.
  unfold le0. destruct (Rle_dec x 0); split; intros; try easy; contradiction.
Qed.

Lemma le0_false (x : R) : le0 x = false <-> 0 < x.
Proof.
  unfold le0. destruct (Rle_dec x 0); split; intros; try easy; lra.
Qed.

(** The test of [solve_fin] rejects exactly the parameters with some of
    [k, h, t, b, L] not positive. *)
Lemma guard_false_iff :
  le0 (t p * b p) || le0 (2 * (t p + b p)) || le0 (k p) || le0 (h p) || le0 (L p)
  = false
  <-> positive_params p.
Proof.
  unfold positive_params.
  rewrite !orb_false_iff, !le0_false.
  split.
  - intros [[[[HA HP] Hk] Hh] HL].
    assert (Ht : 0 < t p).
    { destruct (Rlt_le_dec 0 (t p)) as [Ht|Ht]; [exact Ht|].
      destruct (Rlt_le_dec 0 (b p)) as [Hb|Hb]; nra. }
    assert (Hb : 0 < b p) by nra.
    tauto.
  - intros (Hk & Hh & Ht & Hb & HL).
    repeat split; try assumption; nra.
Qed.

Lemma not_positive_params :
  ~ positive_params p <->
  k p <= 0 \/ h p <= 0 \/ t p <= 0 \/ b p <= 0 \/ L p <= 0.
Proof.
  unfold positive_params. split.
  - intro Hn.
    destruct (Rlt_le_dec 0 (k p)); [|tauto].
    destruct (Rlt_le_dec 0 (h p)); [|tauto].
    destruct (Rlt_le_dec 0 (t p)); [|tauto].
    destruct (Rlt_le_dec 0 (b p)); [|tauto].
    destruct (Rlt_le_dec 0 (L p)); tauto.
  - intros H (Hk & Hh & Ht & Hb & HL). lra.
Qed.

Lemma positive_params_cases : positive_params p \/ ~ positive_params p.
Proof.
  destruct (le0 (t p * b p) || le0 (2 * (t p + b p)) || le0 (k p)
            || le0 (h p) || le0 (L p)) eqn:Hg.
  - right. intro Hpos. apply guard_false_iff in Hpos. congruence.
  - left. apply guard_false_iff. exact Hg.
Qed.

Lemma fin_m_pos : positive_params p -> 0 < fin_m p.
Proof.
  intros (Hk & Hh & Ht & Hb & HL).
  unfold fin_m, fin_Ac, fin_P. apply sqrt_lt_R0.
  assert (0 < t p * b p) by (apply Rmult_lt_0_compat; assumption).
  apply Rdiv_lt_0_compat; apply Rmult_lt_0_compat; lra.
Qed.

(** With positive parameters and a sample count that is not negative,
    [solve_fin] returns, and its three results are the ones of the
    closed-form solution on the samples of [linspace]. *)
Lemma solve_fin_returns (n : Z) :
  positive_params p -> (0 <= n)%Z ->
  exists x,
    linspace 0 (L p) n = inr x /\ length x = Z.to_nat n /\
    solve_fin p n =
    inr (x,
         map (fun th => Tinf p + th)
             (map (fun xi => fin_theta_b p * cosh (fin_m p * (L p - xi))
                             / cosh (fin_m p * L p)) x),
         [("m", fin_m p);
          ("Q", k p * fin_Ac p * fin_m p * fin_theta_b p * tanh (fin_m p * L p));
          ("eta", tanh (fin_m p * L p) / (fin_m p * L p));
          ("eps", (k p * fin_m p / h p) * tanh (fin_m p * L p));
          ("Ac", fin_Ac p); ("P", fin_P p)]%string).
Proof.
  intros Hpos Hn.
  destruct (linspace_returns 0 (L p) n Hn) as [x [Hx Hlen]].
  exists x. split; [exact Hx|]. split; [exact Hlen|].
  unfold solve_fin.
  apply guard_false_iff in Hpos. rewrite Hpos.
  rewrite Hx. reflexivity.
Qed.

Lemma solve_fin_raises (n : Z) :
  ~ positive_params p ->
  solve_fin p n = inl (ValueError "Parametry muszą być > 0.").
Proof.
  intro Hneg. unfold solve_fin.
  destruct (le0 (t p * b p) || le0 (2 * (t p + b p)) || le0 (k p)
            || le0 (h p) || le0 (L p)) eqn:Hg.
  - reflexivity.
  - apply guard_false_iff in Hg. contradiction.
Qed.

Lemma solve_fin_negative_count (n : Z) :
  positive_params p -> (n < 0)%Z ->
  exists msg, solve_fin p n = inl (ValueError msg).
Proof.
  intros Hpos Hn. unfold solve_fin.
  apply guard_false_iff in Hpos. rewrite Hpos.
  destruct (linspace_negative 0 (L p) n Hn) as [msg Hmsg].
  exists msg. rewrite Hmsg. reflexivity.
Qed.

(** The samples of [linspace 0 L n], [n >= 2], for a positive [L]. *)
Lemma positions_nth (n : Z) (x : list R) (i : nat) :
  (2 <= n)%Z -> linspace 0 (L p) n = inr x -> (i < Z.to_nat n)%nat ->
  nth i x 0 = INR i * (L p / IZR (n - 1)).
Proof.
  intros Hn Hx Hi.
  rewrite (linspace_nth 0 (L p) n x i Hn Hx Hi).
  unfold Rminus. rewrite Ropp_0, Rplus_0_r, Rplus_0_l. reflexivity.
Qed.

Lemma positions_last (n : Z) :
  (2 <= n)%Z -> INR (Z.to_nat n - 1) * (L p / IZR (n - 1)) = L p.
Proof.
  intro Hn.
  assert (Hnum : INR (Z.to_nat n - 1) = IZR (n - 1)).
  { rewrite INR_IZR_INZ. f_equal. lia. }
  assert (0 < IZR (n - 1)) by (apply IZR_lt; lia).
  rewrite Hnum. field. lra.
Qed.

Lemma step_pos (n : Z) : 0 < L p -> (2 <= n)%Z -> 0 < L p / IZR (n - 1).
Proof.
  intros HL Hn. apply Rdiv_lt_0_compat; [exact HL|].
  apply IZR_lt. lia.
Qed.

Lemma positions_bounds (n : Z) (i : nat) :
  0 < L p -> (2 <= n)%Z -> (i < Z.to_nat n)%nat ->
  0 <= INR i * (L p / IZR (n - 1)) <= L p.
Proof.
  intros HL Hn Hi.
  pose proof (step_pos n HL Hn) as Hstep.
  pose proof (pos_INR i) as Hi0.
  split.
  - apply Rmult_le_pos; lra.
  - rewrite <- (positions_last n Hn) at 2.
    apply Rmult_le_compat_r; [lra|].
    apply le_INR. lia.
Qed.

End Solver.

(** ** Runs on concrete inputs *)

Example linspace_negative_message :
  linspace 0 1 (-1)
  = inl (ValueError "Number of samples, -1, must be non-negative.").
Proof. reflexivity. Qed.

Example setattr_thickness :
  t (setattr FinParams_init "t" (2 / 1000)) = 2 / 1000
  /\ b (setattr FinParams_init "t" (2 / 1000)) = b FinParams_init.
Proof. split; reflexivity. Qed.

Example on_run_first :
  on_run FinUI_init
  = set_threads [mkSolverThread 0 Running] (set_worker (Some 0%nat) FinUI_init).
Proof. reflexivity. Qed.

Example on_run_twice_boxes :
  boxes (on_run (on_run FinUI_init))
  = [information "Fin Designer" "Solver już pracuje."].
Proof. reflexivity. Qed.

Example deliver_failed :
  boxes (deliver (set_queue [failed "ValueError: Parametry muszą być > 0."]
                            FinUI_init))
  = [critical "Solver error" "ValueError: Parametry muszą być > 0."].
Proof. reflexivity. Qed.

(** ** The solver: temperature profile, metrics, failure *)

(** Over exact reals: for positive [k, h, t, b, L] and [n >= 2],
    [solve_fin] returns [n] positions and [n] temperatures, and the
    temperature paired with each position [x] is
    [Tinf + theta_b * cosh (m * (L - x)) / cosh (m * L)]. *)
Lemma solve_fin_temperature_profile (p : FinParams) (n : Z) :
  0 < k p -> 0 < h p -> 0 < t p -> 0 < b p -> 0 < L p -> (2 <= n)%Z ->
  exists x T M,
    solve_fin p n = inr (x, T, M) /\
    length x = Z.to_nat n /\
    Forall2 (fun xi Ti =>
               Ti = Tinf p + fin_theta_b p * cosh (fin_m p * (L p - xi))
                             / cosh (fin_m p * L p)) x T.
Proof.
  intros Hk Hh Ht Hb HL Hn.
  destruct (solve_fin_returns p n) as [x (_ & Hlen & Hsolve)];
    [unfold positive_params; tauto | lia |].
  eexists x, _, _. split; [exact Hsolve|]. split; [exact Hlen|].
  clear Hsolve Hlen. induction x as [|xi x IH]; simpl; constructor.
  - reflexivity.
  - exact IH.
Qed.



(** C3, as stated, fails on two counts.  With the default parameters and
    [n = 1 < 2], [solve_fin] returns a result (one sample) instead of
    failing.  And the error does not tell the fields apart: the input with
    only [t = 0] and the input with only [k = 0] raise the very same error. *)
Lemma solve_fin_invalid_parameter_counterexample :
  ((1 < 2)%Z /\ ~ (exists e, solve_fin FinParams_init 1 = inl e)) /\
  (t params_t_zero <= 0 /\ 0 < k params_t_zero /\
   k params_k_zero <= 0 /\ 0 < t params_k_zero /\
   solve_fin params_t_zero 300 = solve_fin params_k_zero 300).
Proof.
  split.
  - split; [lia|].
    intros [e He].
    destruct (solve_fin_returns FinParams_init 1) as [x (_ & _ & Hsolve)].
    + unfold positive_params; simpl; lra.
    + lia.
    + rewrite Hsolve in He. discriminate He.
  - repeat split; simpl; try lra.
    rewrite !solve_fin_raises; [reflexivity| |];
      intros (Hk & Hh & Ht & Hb & HL); simpl in *; lra.
Qed.

(** C3, amended.  For parameters that are finite numbers with some of
    [k, h, t, b, L] not positive, [solve_fin] fails, whatever the count,
    with the [ValueError] of the one fixed message, which names no field;
    this is the error for the input
    [k=15, h=120, t=0, b=0.01, L=0.03, Tb=900, Tinf=600].  The count is not
    checked: with the default parameters [n = 0] and [n = 1] return a
    result. *)
Theorem solve_fin_failure (p : FinParams) (n : Z) :
  ((k p <= 0 \/ h p <= 0 \/ t p <= 0 \/ b p <= 0 \/ L p <= 0) ->
   solve_fin p n = inl (ValueError "Parametry muszą być > 0.")) /\
  solve_fin params_t_zero n = inl (ValueError "Parametry muszą być > 0.") /\
  (exists r, solve_fin FinParams_init 0 = inr r) /\
  (exists r, solve_fin FinParams_init 1 = inr r).
Proof.
  assert (Hinit : positive_params FinParams_init)
    by (unfold positive_params; simpl; lra).
  split; [|split; [|split]].
  - intro Hbad. apply solve_fin_raises, not_positive_params. exact Hbad.
  - apply solve_fin_raises, not_positive_params. simpl. lra.
  - destruct (solve_fin_returns FinParams_init 0 Hinit) as [x (_ & _ & Hsolve)];
      [lia|].
    eexists. exact Hsolve.
  - destruct (solve_fin_returns FinParams_init 1 Hinit) as [x (_ & _ & Hsolve)];
      [lia|].
    eexists. exact Hsolve.
Qed.

Lemma solve_fin_failure_witness :
  solve_fin params_t_zero 300 = inl (ValueError "Parametry muszą być > 0.").
Proof.
  apply (proj1 (solve_fin_failure params_t_zero 300)).
  simpl. lra.
Defined.

(** ** The solver: sampling, monotonicity, bounds *)



(** Over exact reals: for positive [k, h, t, b, L] and [Tb > Tinf], the
    temperatures of [solve_fin] never increase along the positions. *)
Lemma solve_fin_temperatures_nonincreasing (p : FinParams) (n : Z) :
  0 < k p -> 0 < h p -> 0 < t p -> 0 < b p -> 0 < L p -> Tinf p < Tb p ->
  (0 <= n)%Z ->
  exists x T M, solve_fin p n = inr (x, T, M) /\ nonincreasing T.
Proof.
  intros Hk Hh Ht Hb HL HT Hn.
  assert (Hpos : positive_params p) by (unfold positive_params; tauto).
  destruct (solve_fin_returns p n Hpos Hn) as [x (Hx & Hlen & Hsolve)].
  eexists x, _, _. split; [exact Hsolve|].
  intros i Hi. rewrite !length_map, Hlen in Hi.
  assert (Hn2 : (2 <= n)%Z) by lia.
  pose proof (fin_m_pos p Hpos) as Hm.
  pose proof (cosh_pos (fin_m p * L p)) as Hc.
  pose proof (step_pos p n HL Hn2) as Hstep.
  pose proof (positions_bounds p n (S i) HL Hn2 Hi) as [_ Hup].
  rewrite S_INR in Hup.
  set (f := fun xi => fin_theta_b p * cosh (fin_m p * (L p - xi))
                      / cosh (fin_m p * L p)).
  rewrite (nth_map_in _ _ (S i) 0 0) by (rewrite length_map, Hlen; exact Hi).
  rewrite (nth_map_in _ _ i 0 0) by (rewrite length_map, Hlen; lia).
  rewrite (nth_map_in f x (S i) 0 0) by (rewrite Hlen; exact Hi).
  rewrite (nth_map_in f x i 0 0) by (rewrite Hlen; lia).
  rewrite (positions_nth p n x (S i) Hn2 Hx Hi).
  rewrite (positions_nth p n x i Hn2 Hx) by lia.
  rewrite S_INR.
  apply Rplus_le_compat_l. unfold f, Rdiv.
  apply Rmult_le_compat_r; [left; apply Rinv_0_lt_compat; exact Hc|].
  apply Rmult_le_compat_l; [unfold fin_theta_b; lra|].
  apply cosh_incr.
  - apply Rmult_le_pos; lra.
  - apply Rmult_le_compat_l; lra.
Qed.

(** Over exact reals: for positive [k, h, t, b, L] the efficiency [eta]
    of [solve_fin] satisfies [0 < eta <= 1]. *)
Lemma solve_fin_eta_bounds (p : FinParams) (n : Z) :
  0 < k p -> 0 < h p -> 0 < t p -> 0 < b p -> 0 < L p -> (0 <= n)%Z ->
  exists x T M eta,
    solve_fin p n = inr (x, T, M) /\
    lookup "eta" M = Some eta /\
    0 < eta <= 1.
Proof.
  intros Hk Hh Ht Hb HL Hn.
  assert (Hpos : positive_params p) by (unfold positive_params; tauto).
  destruct (solve_fin_returns p n Hpos Hn) as [x (_ & _ & Hsolve)].
  eexists x, _, _, _. split; [exact Hsolve|].
  split; [reflexivity|].
  pose proof (fin_m_pos p Hpos) as Hm.
  assert (HmL : 0 < fin_m p * L p) by (apply Rmult_lt_0_compat; assumption).
  split.
  - apply Rdiv_lt_0_compat; [apply tanh_pos|]; exact HmL.
  - apply (Rmult_le_reg_r (fin_m p * L p)); [exact HmL|].
    unfold Rdiv. rewrite Rmult_assoc, Rinv_l, Rmult_1_r, Rmult_1_l by lra.
    apply tanh_le_id. lra.
Qed.

(** C10, amended.  Over exact reals: for positive [k, h, t, b, L] the
    expressions by which [solve_fin] computes [Q], [eps] and [Ac] satisfy
    [Q = eps * h * Ac * (Tb - Tinf)]. *)
Theorem solve_fin_heat_rate_effectiveness (p : FinParams) (n : Z) :
  0 < k p -> 0 < h p -> 0 < t p -> 0 < b p -> 0 < L p -> (0 <= n)%Z ->
  exists x T M Q eps Ac,
    solve_fin p n = inr (x, T, M) /\
    lookup "Q" M = Some Q /\
    lookup "eps" M = Some eps /\
    lookup "Ac" M = Some Ac /\
    Q = eps * h p * Ac * (Tb p - Tinf p).
Proof.
  intros Hk Hh Ht Hb HL Hn.
  assert (Hpos : positive_params p) by (unfold positive_params; tauto).
  destruct (solve_fin_returns p n Hpos Hn) as [x (_ & _ & Hsolve)].
  eexists x, _, _, _, _, _. split; [exact Hsolve|].
  repeat (split; [reflexivity|]).
  unfold fin_theta_b. field. lra.
Qed.

Lemma solve_fin_heat_rate_effectiveness_witness :
  exists x T M Q eps Ac,
    solve_fin FinParams_init 300 = inr (x, T, M) /\
    lookup "Q" M = Some Q /\
    lookup "eps" M = Some eps /\
    lookup "Ac" M = Some Ac /\
    Q = eps * 120 * Ac * (900 - 600).
Proof.
  apply (solve_fin_heat_rate_effectiveness FinParams_init 300);
    simpl; try lra; lia.
Defined.

(** ** Facts on the thread table *)

Section Threads.

Lemma update_thread_length (i : nat) (th : SolverThread) (ts : list SolverThread) :
  length (update_thread i th ts) = length ts.
Proof.
  revert i. induction ts as [|a ts IH]; intros [|i]; simpl; auto.
Qed.

Lemma update_thread_same (i : nat) (th a : SolverThread) (ts : list SolverThread) :
  nth_error ts i = Some a -> nth_error (update_thread i th ts) i = Some th.
Proof.
  revert i. induction ts as [|a' ts IH]; intros [|i] Hi; simpl in *;
    try discriminate; auto.
Qed.

Lemma update_thread_other (i j : nat) (th : SolverThread) (ts : list SolverThread) :
  i <> j -> nth_error (update_thread i th ts) j = nth_error ts j.
Proof.
  revert i j. induction ts as [|a ts IH]; intros [|i] [|j] Hij; simpl;
    try reflexivity; try congruence.
  apply IH. congruence.
Qed.

(** Starting the thread just appended. *)
Lemma update_thread_last (th th' : SolverThread) (ts : list SolverThread) :
  update_thread (length ts) th' (ts ++ [th]) = ts ++ [th'].
Proof.
  induction ts as [|a ts IH]; simpl; [reflexivity|].
  rewrite IH. reflexivity.
Qed.

Lemma filter_none {A : Type} (f : A -> bool) (l : list A) :
  (forall i a, nth_error l i = Some a -> f a = false) -> filter f l = [].
Proof.
  induction l as [|a l IH]; intro Hall; simpl; [reflexivity|].
  rewrite (Hall 0%nat a eq_refl).
  apply IH. intros i a' Hi. exact (Hall (S i) a' Hi).
Qed.

(** A table whose only running thread is at [i] has one running thread. *)
Lemma filter_single (ts : list SolverThread) (i : nat) (th : SolverThread) :
  nth_error ts i = Some th -> isRunning th = true ->
  (forall j a, nth_error ts j = Some a -> isRunning a = true -> j = i) ->
  filter isRunning ts = [th].
Proof.
  revert i. induction ts as [|a ts IH]; intros i Hi Hrun Honly.
  - destruct i; discriminate Hi.
  - destruct i as [|i]; simpl in Hi.
    + injection Hi as ->. simpl. rewrite Hrun. f_equal.
      apply filter_none. intros j a' Hj.
      destruct (isRunning a') eqn:Ha; [|reflexivity].
      specialize (Honly (S j) a' Hj Ha). discriminate Honly.
    + simpl. destruct (isRunning a) eqn:Ha.
      * specialize (Honly 0%nat a eq_refl Ha). discriminate Honly.
      * apply (IH i Hi Hrun). intros j a' Hj Ha'.
        specialize (Honly (S j) a' Hj Ha'). congruence.
Qed.

End Threads.

(** ** The single-flight invariant *)

Section SingleFlight.

Variable format_exc : PyExc -> string.

Lemma apply_cb_fields (changes : Dict) (w : State) :
  threads (apply_cb changes w) = threads w /\
  params (apply_cb changes w) = params w /\
  _worker (apply_cb changes w) = _worker w /\
  _last (apply_cb changes w) = _last w /\
  queue (apply_cb changes w) = queue w /\
  boxes (apply_cb changes w) = boxes w /\
  objs (apply_cb changes w) (params w)
  = apply_changes changes (objs w (params w)).
Proof.
  revert w. induction changes as [|[name v] rest IH]; intro w.
  - simpl. tauto.
  - simpl apply_cb.
    destruct (IH (store (params w) (setattr (objs w (params w)) name v) w))
      as (Ht & Hp & Hw & Hl & Hq & Hb & Ho).
    simpl in Ht, Hp, Hw, Hl, Hq, Hb, Ho.
    rewrite Nat.eqb_refl in Ho.
    repeat split; assumption.
Qed.

Lemma ParamDialog_apply_fields (vk vh vt vb vL vTb vTinf : R) (w : State) :
  exists r w',
    ParamDialog_apply vk vh vt vb vL vTb vTinf w = (inr r, w') /\
    threads w' = threads w /\ _worker w' = _worker w.
Proof.
  unfold ParamDialog_apply, try_except, mbind, modify, lift, mret.
  destruct (le0 (Rmin vk (Rmin vh (Rmin vt (Rmin vb vL))))); simpl;
    eexists _, _; repeat split; reflexivity.
Qed.

Lemma SolverThread_run_fields (self : SolverThread) (w : State) :
  exists s,
    SolverThread_run format_exc self w = (inr tt, set_queue (queue w ++ [s]) w) /\
    match solve_fin (objs w (st_params self)) npts_default with
    | inr r => s = done r
    | inl e => s = failed (format_exc e)
    end.
Proof.
  unfold SolverThread_run, try_except, mbind, deref, lift, emit, modify.
  destruct (solve_fin (objs w (st_params self)) npts_default) as [e|r];
    eexists; split; reflexivity.
Qed.

Lemma on_run_idle (w : State) :
  worker_running w = false ->
  on_run w =
  set_threads (threads w ++ [mkSolverThread (params w) Running])
              (set_worker (Some (length (threads w))) w).
Proof.
  intro Hidle. unfold on_run. rewrite Hidle. simpl.
  rewrite update_thread_last. reflexivity.
Qed.

Lemma step_preserves (a : Action) (w w' : State) :
  only_worker_runs w -> step format_exc a w = inr w' -> only_worker_runs w'.
Proof.
  intros Inv Hstep. destruct a; simpl in Hstep.
  - (* RUN *)
    injection Hstep as <-.
    destruct (worker_running w) eqn:Hrun.
    + unfold on_run. rewrite Hrun. exact Inv.
    + rewrite (on_run_idle w Hrun). intros i th Hi Hth. simpl in *.
      destruct (Nat.lt_ge_cases i (length (threads w))) as [Hlt|Hge].
      * rewrite nth_error_app1 in Hi by exact Hlt.
        pose proof (Inv i th Hi Hth) as Hw.
        unfold worker_running in Hrun. rewrite Hw, Hi in Hrun. congruence.
      * rewrite nth_error_app2 in Hi by exact Hge.
        destruct (i - length (threads w))%nat as [|d] eqn:Hd.
        -- f_equal. lia.
        -- destruct d; discriminate Hi.
  - (* PRESETS *)
    injection Hstep as <-.
    destruct (apply_cb_fields changes w) as (Ht & _ & Hw & _).
    unfold only_worker_runs. rewrite Ht, Hw. exact Inv.
  - (* PARAMETERS *)
    destruct (ParamDialog_apply_fields vk vh vt vb vL vTb vTinf w)
      as (r & w1 & Hrun & Ht & Hw).
    rewrite Hrun in Hstep. injection Hstep as <-.
    unfold only_worker_runs. rewrite Ht, Hw. exact Inv.
  - (* CLEAR *)
    injection Hstep as <-. exact Inv.
  - (* THREAD *)
    unfold thread_step in Hstep.
    destruct (nth_error (threads w) i) as [th|] eqn:Hi;
      [|injection Hstep as <-; exact Inv].
    destruct (isRunning th) eqn:Hth; [|injection Hstep as <-; exact Inv].
    destruct (SolverThread_run_fields th w) as (s & Hrun & _).
    rewrite Hrun in Hstep. injection Hstep as <-.
    intros j th' Hj Hth'. simpl in *.
    destruct (Nat.eq_dec i j) as [->|Hij].
    + rewrite (update_thread_same j _ th _ Hi) in Hj.
      injection Hj as <-. discriminate Hth'.
    + rewrite update_thread_other in Hj by exact Hij.
      exact (Inv j th' Hj Hth').
  - (* DELIVER *)
    injection Hstep as <-. unfold deliver.
    destruct (queue w) as [|[[[x T] M]|err] rest]; exact Inv.
Qed.

Lemma steps_preserve (acts : list Action) (w w' : State) :
  only_worker_runs w -> steps format_exc acts w = inr w' -> only_worker_runs w'.
Proof.
  revert w. induction acts as [|a acts IH]; intros w Inv Hsteps; simpl in Hsteps.
  - injection Hsteps as <-. exact Inv.
  - destruct (step format_exc a w) as [e|w1] eqn:Hstep; [discriminate Hsteps|].
    simpl in Hsteps.
    exact (IH w1 (step_preserves a w w1 Inv Hstep) Hsteps).
Qed.

Lemma reachable_only_worker_runs (w : State) :
  reachable format_exc w -> only_worker_runs w.
Proof.
  intros [acts Hsteps].
  apply (steps_preserve acts FinUI_init w); [|exact Hsteps].
  intros i th Hi _. destruct i; discriminate Hi.
Qed.

End SingleFlight.

(** ** The worker and the actions of [FinUI] *)

Section Worker.

Variable format_exc : PyExc -> string.

(** C5.  In any state the application can reach: when the worker is running,
    [on_run] only shows the information box "Solver już pracuje." and
    starts no thread, the one running thread staying the only one; when no
    worker is running, no thread at all is running, and [on_run] creates
    and starts exactly one [SolverThread] on [self.params], which is then
    the running worker. *)
Theorem on_run_single_flight (w : State) :
  reachable format_exc w ->
  (worker_running w = true ->
   on_run w = show (information "Fin Designer" "Solver już pracuje.") w /\
   threads (on_run w) = threads w /\
   length (running_threads (on_run w)) = 1%nat) /\
  (worker_running w = false ->
   running_threads w = [] /\
   threads (on_run w) = threads w ++ [mkSolverThread (params w) Running] /\
   _worker (on_run w) = Some (length (threads w)) /\
   running_threads (on_run w) = [mkSolverThread (params w) Running] /\
   worker_running (on_run w) = true /\
   boxes (on_run w) = boxes w).
Proof.
  intro Hreach.
  pose proof (reachable_only_worker_runs format_exc w Hreach) as Inv.
  split; intro Hrun.
  - assert (Heq : on_run w
                  = show (information "Fin Designer" "Solver już pracuje.") w)
      by (unfold on_run; rewrite Hrun; reflexivity).
    rewrite Heq. split; [reflexivity|]. split; [reflexivity|].
    unfold running_threads. simpl.
    unfold worker_running in Hrun.
    destruct (_worker w) as [i|] eqn:Hw; [|discriminate Hrun].
    destruct (nth_error (threads w) i) as [th|] eqn:Hi; [|discriminate Hrun].
    rewrite (filter_single (threads w) i th Hi Hrun); [reflexivity|].
    intros j a Hj Ha. pose proof (Inv j a Hj Ha) as Hwj. congruence.
  - assert (Hnone : running_threads w = []).
    { apply filter_none. intros i a Hi.
      destruct (isRunning a) eqn:Ha; [|reflexivity].
      pose proof (Inv i a Hi Ha) as Hw.
      unfold worker_running in Hrun. rewrite Hw, Hi in Hrun. congruence. }
    split; [exact Hnone|].
    rewrite (on_run_idle w Hrun). simpl.
    split; [reflexivity|]. split; [reflexivity|].
    split; [|split; [|reflexivity]].
    + unfold running_threads in *. simpl.
      rewrite filter_app, Hnone. reflexivity.
    + unfold worker_running. simpl.
      rewrite nth_error_app2 by lia. rewrite Nat.sub_diag. reflexivity.
Qed.

(** What a running thread does in its step. *)
Lemma thread_step_running (i : nat) (th : SolverThread) (w : State) :
  nth_error (threads w) i = Some th -> isRunning th = true ->
  exists s,
    thread_step format_exc i w
    = inr (set_threads
             (update_thread i (mkSolverThread (st_params th) Finished) (threads w))
             (set_queue (queue w ++ [s]) w)) /\
    match solve_fin (objs w (st_params th)) npts_default with
    | inr r => s = done r
    | inl e => s = failed (format_exc e)
    end.
Proof.
  intros Hi Hth.
  destruct (SolverThread_run_fields format_exc th w) as (s & Hrun & Hs).
  exists s. unfold thread_step. rewrite Hi, Hth, Hrun.
  split; [reflexivity | exact Hs].
Qed.

(** C6.  A running thread executes [run] to its end without an exception
    leaving it, and emits exactly one signal: [done] with the result when
    [solve_fin] returns, [failed] with the formatted traceback when it
    raises.  The thread is finished afterwards and emits nothing more. *)
Theorem thread_step_one_event (i : nat) (th : SolverThread) (w : State) :
  nth_error (threads w) i = Some th -> isRunning th = true ->
  exists s w',
    thread_step format_exc i w = inr w' /\
    queue w' = queue w ++ [s] /\
    match solve_fin (objs w (st_params th)) npts_default with
    | inr r => s = done r
    | inl e => s = failed (format_exc e)
    end /\
    nth_error (threads w') i = Some (mkSolverThread (st_params th) Finished) /\
    thread_step format_exc i w' = inr w'.
Proof.
  intros Hi Hth.
  destruct (thread_step_running i th w Hi Hth) as (s & Hstep & Hs).
  exists s. eexists.
  split; [exact Hstep|]. split; [reflexivity|]. split; [exact Hs|].
  assert (Hfin : nth_error
                   (update_thread i (mkSolverThread (st_params th) Finished)
                                  (threads w)) i
                 = Some (mkSolverThread (st_params th) Finished))
    by (apply (update_thread_same i _ th); exact Hi).
  split; [exact Hfin|].
  unfold thread_step. simpl threads. rewrite Hfin. reflexivity.
Qed.

End Worker.

(** The first [RUN] of the application, and a second one while the first
    worker is still running. *)
Lemma on_run_single_flight_witness :
  (running_threads FinUI_init = [] /\
   threads (on_run FinUI_init) = [mkSolverThread 0 Running] /\
   _worker (on_run FinUI_init) = Some 0%nat /\
   running_threads (on_run FinUI_init) = [mkSolverThread 0 Running] /\
   worker_running (on_run FinUI_init) = true /\
   boxes (on_run FinUI_init) = []) /\
  (on_run (on_run FinUI_init)
   = show (information "Fin Designer" "Solver już pracuje.") (on_run FinUI_init) /\
   threads (on_run (on_run FinUI_init)) = threads (on_run FinUI_init) /\
   length (running_threads (on_run (on_run FinUI_init))) = 1%nat).
Proof.
  split.
  - apply (proj2 (on_run_single_flight format_exc_last_line FinUI_init
                    (ex_intro _ [] eq_refl))).
    reflexivity.
  - apply (proj1 (on_run_single_flight format_exc_last_line (on_run FinUI_init)
                    (ex_intro _ [RUN] eq_refl))).
    reflexivity.
Defined.

Lemma thread_step_one_event_witness :
  exists s w',
    thread_step format_exc_last_line 0 (on_run FinUI_init) = inr w' /\
    queue w' = [s] /\
    match solve_fin FinParams_init npts_default with
    | inr r => s = done r
    | inl e => s = failed (format_exc_last_line e)
    end /\
    nth_error (threads w') 0 = Some (mkSolverThread 0 Finished) /\
    thread_step format_exc_last_line 0 w' = inr w'.
Proof.
  apply (thread_step_one_event format_exc_last_line 0
           (mkSolverThread 0 Running) (on_run FinUI_init));
    reflexivity.
Defined.

(** ** The snapshot and the parameters *)

Section Snapshot.

Variable format_exc : PyExc -> string.

(** A run from submission to completion, with parameter edits [c1] after
    the submission and before the thread runs, and [c2] after the thread
    has run and before its signal is delivered. *)
Lemma run_with_edits (w : State) (c1 c2 : Dict) (r : SolveResult) :
  worker_running w = false -> queue w = [] ->
  solve_fin (apply_changes c1 (objs w (params w))) npts_default = inr r ->
  exists w3,
    thread_step format_exc (length (threads w)) (apply_cb c1 (on_run w)) = inr w3 /\
    _last (deliver (apply_cb c2 w3))
    = Some (r, params_dict
                 (apply_changes c2 (apply_changes c1 (objs w (params w))))).
Proof.
  intros Hidle Hq Hsolve.
  pose proof (on_run_idle w Hidle) as Hrun.
  destruct (apply_cb_fields c1 (on_run w)) as (Ht1 & Hp1 & _ & _ & Hq1 & _ & Ho1).
  rewrite Hrun in Ht1, Hp1, Hq1, Ho1. simpl in Ht1, Hp1, Hq1, Ho1.
  rewrite <- Hrun in Ht1, Hp1, Hq1, Ho1.
  set (w2 := apply_cb c1 (on_run w)) in *.
  assert (Hi : nth_error (threads w2) (length (threads w))
               = Some (mkSolverThread (params w) Running)).
  { rewrite Ht1, nth_error_app2 by lia. rewrite Nat.sub_diag. reflexivity. }
  destruct (thread_step_running format_exc _ _ w2 Hi eq_refl) as (s & Hstep & Hs).
  simpl st_params in Hs, Hstep. rewrite Ho1, Hsolve in Hs. subst s.
  rewrite Hq1, Hq in Hstep. simpl app in Hstep.
  eexists. split; [exact Hstep|].
  match goal with |- context [apply_cb c2 ?w3] =>
    destruct (apply_cb_fields c2 w3) as (_ & Hp4 & _ & _ & Hq4 & _ & Ho4)
  end.
  simpl in Hp4, Hq4, Ho4.
  unfold deliver. rewrite Hq4.
  destruct r as [[x T] M]. simpl.
  rewrite Hp4, Ho4, Hp1, Ho1. reflexivity.
Qed.

(** C4, amended.  The worker holds the Parameter Model itself, not a copy.
    With parameter edits [c1] made after the submission and before the
    thread starts to execute [run], and [c2] made after [run] has returned
    and before its completion is handled, the solver computes on the
    parameters as edited by [c1], and the snapshot pairs that result with
    the parameters as edited by [c1] and [c2].  Without any edit ([c1] and
    [c2] empty) the snapshot pairs the result with the parameters of the
    submission, which the solver used.  Edits during [run] are not
    covered. *)
Theorem snapshot_records_live_params (w : State) (c1 c2 : Dict) :
  worker_running w = false -> queue w = [] ->
  positive_params (apply_changes c1 (objs w (params w))) ->
  nth_error (threads (on_run w)) (length (threads w))
  = Some (mkSolverThread (params (on_run w)) Running) /\
  exists r w3,
    solve_fin (apply_changes c1 (objs w (params w))) npts_default = inr r /\
    thread_step format_exc (length (threads w)) (apply_cb c1 (on_run w))
    = inr w3 /\
    _last (deliver (apply_cb c2 w3))
    = Some (r, params_dict
                 (apply_changes c2 (apply_changes c1 (objs w (params w))))).
Proof.
  intros Hidle Hq Hpos.
  pose proof (on_run_idle w Hidle) as Hrun.
  split.
  - rewrite Hrun. simpl. rewrite nth_error_app2 by lia.
    rewrite Nat.sub_diag. reflexivity.
  - destruct (solve_fin_returns _ npts_default Hpos) as [x (_ & _ & Hsolve)];
      [unfold npts_default; lia|].
    destruct (run_with_edits w c1 c2 _ Hidle Hq Hsolve) as (w3 & Hstep & Hlast).
    eexists _, w3. split; [exact Hsolve|]. split; [exact Hstep | exact Hlast].
Qed.

End Snapshot.

(** The parameters after the preset "Thick fin (t=5mm) + long (L=50mm)". *)
Lemma thick_fin_params :
  apply_changes preset_thick_fin FinParams_init
  = {| k := 15; h := 120; t := 5 / 1000; b := 10 / 1000; L := 50 / 1000;
       Tb := 900; Tinf := 600 |}.
Proof. reflexivity. Qed.

(** C4, as stated, fails: the user presses RUN with the default parameters,
    applies the preset "Thick fin" before the thread runs, the thread runs
    and its signal is delivered.  The snapshot does not hold the parameters
    of the submission, and its result is not the solution for them. *)
Lemma snapshot_not_submission_counterexample :
  exists w3 x T M P,
    thread_step format_exc_last_line 0
                (apply_cb preset_thick_fin (on_run FinUI_init)) = inr w3 /\
    _last (deliver w3) = Some (x, T, M, P) /\
    P <> params_dict (objs FinUI_init (params FinUI_init)) /\
    solve_fin (objs FinUI_init (params FinUI_init)) npts_default
    <> inr (x, T, M).
Proof.
  set (p1 := apply_changes preset_thick_fin FinParams_init).
  assert (Hpos1 : positive_params p1)
    by (unfold p1; rewrite thick_fin_params; unfold positive_params; simpl; lra).
  destruct (solve_fin_returns p1 npts_default Hpos1) as [x1 (_ & _ & Hsolve1)];
    [unfold npts_default; lia|].
  destruct (run_with_edits format_exc_last_line FinUI_init preset_thick_fin []
              _ eq_refl eq_refl Hsolve1) as (w3 & Hstep & Hlast).
  exists w3. eexists _, _, _, _.
  split; [exact Hstep|]. split; [exact Hlast|].
  split.
  - intro Heq. apply (f_equal (lookup "t")) in Heq.
    cbn in Heq. injection Heq as Ht. lra.
  - simpl objs.
    destruct (solve_fin_returns FinParams_init npts_default) as [x0 (_ & _ & Hsolve0)];
      [unfold positive_params; simpl; lra | unfold npts_default; lia |].
    rewrite Hsolve0. intro Heq.
    apply (f_equal (fun r : Exc SolveResult =>
                      match r with
                      | inr (_, _, M) => lookup "Ac" M
                      | inl _ => None
                      end)) in Heq.
    cbn in Heq. injection Heq as HAc.
    unfold fin_Ac in HAc. simpl in HAc. lra.
Qed.

(** RUN with the default parameters: once with the presets "Thick fin" and
    "Cool ambient" around the run of the thread, once without edits. *)
Lemma snapshot_records_live_params_witness :
  (nth_error (threads (on_run FinUI_init)) 0
   = Some (mkSolverThread (params (on_run FinUI_init)) Running) /\
   exists r w3,
     solve_fin (apply_changes preset_thick_fin FinParams_init) npts_default
     = inr r /\
     thread_step format_exc_last_line 0
                 (apply_cb preset_thick_fin (on_run FinUI_init)) = inr w3 /\
     _last (deliver (apply_cb preset_cool_ambient w3))
     = Some (r, params_dict
                  (apply_changes preset_cool_ambient
                     (apply_changes preset_thick_fin FinParams_init)))) /\
  (nth_error (threads (on_run FinUI_init)) 0
   = Some (mkSolverThread (params (on_run FinUI_init)) Running) /\
   exists r w3,
     solve_fin FinParams_init npts_default = inr r /\
     thread_step format_exc_last_line 0 (on_run FinUI_init) = inr w3 /\
     _last (deliver w3) = Some (r, params_dict FinParams_init)).
Proof.
  split.
  - apply (snapshot_records_live_params format_exc_last_line FinUI_init
             preset_thick_fin preset_cool_ambient);
      try reflexivity.
    unfold positive_params; simpl; lra.
  - apply (snapshot_records_live_params format_exc_last_line FinUI_init [] []);
      try reflexivity.
    unfold positive_params; simpl; lra.
Defined.

(** ** The solver: the sample count *)

(** X8.  The sample count is not checked.  Whenever [solve_fin] returns for
    some count, it returns for every count [n' >= 0], with [n'] positions,
    [n'] temperatures and the same metrics; for 0 both arrays are empty,
    for 1 they hold one sample, at position 0. *)
Theorem solve_fin_small_counts
  (p : FinParams) (n : Z) (x T : list R) (M : Metrics) :
  solve_fin p n = inr (x, T, M) ->
  solve_fin p 0 = inr ([], [], M) /\
  (exists T0, solve_fin p 1 = inr ([0], [T0], M)) /\
  forall n', (0 <= n')%Z ->
    exists x' T',
      solve_fin p n' = inr (x', T', M) /\
      length x' = Z.to_nat n' /\ length T' = Z.to_nat n'.
Proof.
  intro Hsolve.
  assert (Hpos : positive_params p).
  { destruct (positive_params_cases p) as [Hpos|Hneg]; [exact Hpos|].
    rewrite (solve_fin_raises p n Hneg) in Hsolve. discriminate Hsolve. }
  assert (Hn : (0 <= n)%Z).
  { destruct (Z_lt_le_dec n 0) as [Hlt|Hge]; [|exact Hge].
    destruct (solve_fin_negative_count p n Hpos Hlt) as [msg Hmsg].
    rewrite Hmsg in Hsolve. discriminate Hsolve. }
  destruct (solve_fin_returns p n Hpos Hn) as [x0 (_ & _ & Hsolve0)].
  rewrite Hsolve0 in Hsolve. injection Hsolve as _ _ <-.
  split; [|split].
  - destruct (solve_fin_returns p 0 Hpos) as [x1 (Hx & _ & Hsolve1)]; [lia|].
    unfold linspace in Hx. simpl in Hx. injection Hx as <-. exact Hsolve1.
  - destruct (solve_fin_returns p 1 Hpos) as [x1 (Hx & _ & Hsolve1)]; [lia|].
    unfold linspace in Hx. simpl in Hx. injection Hx as <-.
    rewrite Hsolve1. simpl.
    replace (0 * (L p - 0) + 0) with 0 by ring.
    eexists. reflexivity.
  - intros n' Hn'.
    destruct (solve_fin_returns p n' Hpos Hn') as [x1 (_ & Hlen & Hsolve1)].
    eexists x1, _. split; [exact Hsolve1|]. split; [exact Hlen|].
    rewrite !length_map. exact Hlen.
Qed.

(** ** Editing the parameters: [setattr], the presets, the dialog *)

Section Editing.

(** The names of the seven attributes. *)
Lemma setattr_other_name (q : FinParams) (name : string) (v : R) :
  ~ In name ["k"; "h"; "t"; "b"; "L"; "Tb"; "Tinf"]%string ->
  setattr q name v = q.
Proof.
  intro Hnot. unfold setattr.
  repeat match goal with
         | |- context [String.eqb name ?s] =>
             destruct (String.eqb_spec name s) as [->|_];
             [exfalso; apply Hnot; simpl; tauto|]
         end.
  reflexivity.
Qed.

(** X9.  [setattr] followed by the dict of the parameters is a write and a
    read: the written attribute reads back the new value, every other name
    reads what it read before; a name that is none of the seven changes
    no attribute. *)
Theorem setattr_lookup (q : FinParams) (name : string) (v : R) :
  (In name ["k"; "h"; "t"; "b"; "L"; "Tb"; "Tinf"]%string ->
   lookup name (params_dict (setattr q name v)) = Some v) /\
  (forall name', name' <> name ->
     lookup name' (params_dict (setattr q name v))
     = lookup name' (params_dict q)) /\
  (~ In name ["k"; "h"; "t"; "b"; "L"; "Tb"; "Tinf"]%string ->
   params_dict (setattr q name v) = params_dict q).
Proof.
  split; [|split].
  - intro Hin. simpl in Hin.
    destruct Hin as [<-|[<-|[<-|[<-|[<-|[<-|[<-|[]]]]]]]]; reflexivity.
  - intros name' Hne.
    destruct (in_dec string_dec name ["k"; "h"; "t"; "b"; "L"; "Tb"; "Tinf"]%string)
      as [Hin|Hnot].
    + simpl in Hin.
      destruct Hin as [<-|[<-|[<-|[<-|[<-|[<-|[<-|[]]]]]]]];
        unfold params_dict, lookup; simpl setattr; cbn [k h t b L Tb Tinf];
        repeat match goal with
               | |- context [String.eqb name' ?s] =>
                   destruct (String.eqb_spec name' s) as [Heq|_];
                   [try congruence; try reflexivity|]
               end; reflexivity.
    + rewrite setattr_other_name by exact Hnot. reflexivity.
  - intro Hnot. rewrite setattr_other_name by exact Hnot. reflexivity.
Qed.

(** X10.  Applying the dict of some parameters [q] as changes to any
    parameters gives [q]: a preset that names all seven attributes, like
    "Baseline", replaces the parameters whatever they were. *)
Theorem apply_changes_params_dict (q q0 : FinParams) :
  apply_changes (params_dict q) q0 = q.
Proof.
  destruct q. reflexivity.
Qed.

Lemma setattr_positive (q : FinParams) (name : string) (v : R) :
  0 < v -> positive_params q -> positive_params (setattr q name v).
Proof.
  intros Hv (Hk & Hh & Ht & Hb & HL). unfold setattr, positive_params.
  repeat match goal with
         | |- context [String.eqb name ?s] => destruct (String.eqb name s)
         end; simpl; tauto.
Qed.

(** X11.  Changes whose values are all positive keep [k, h, t, b, L]
    positive. *)
Theorem apply_changes_keeps_positive (changes : Dict) (q : FinParams) :
  Forall (fun kv => 0 < snd kv) changes ->
  positive_params q ->
  positive_params (apply_changes changes q).
Proof.
  intro Hall. revert q. unfold apply_changes.
  induction Hall as [|[name v] rest Hv _ IH]; intros q Hq; simpl.
  - exact Hq.
  - apply IH. apply setattr_positive; assumption.
Qed.

Lemma min5_positive (a1 a2 a3 a4 a5 : R) :
  le0 (Rmin a1 (Rmin a2 (Rmin a3 (Rmin a4 a5)))) = false
  <-> 0 < a1 /\ 0 < a2 /\ 0 < a3 /\ 0 < a4 /\ 0 < a5.
Proof.
  rewrite le0_false.
  change (0 < Rmin a1 (Rmin a2 (Rmin a3 (Rmin a4 a5))))
    with (Rmin a1 (Rmin a2 (Rmin a3 (Rmin a4 a5))) > 0).
  rewrite !Rmin_Rgt. unfold Rgt. tauto.
Qed.

(** X12.  On entered values that are finite numbers, [ParamDialog.apply]
    never raises.  It returns [True] exactly when the five values
    [k, h, t, b, L] are positive, and then shows nothing; otherwise it
    returns [False] and shows the warning box. *)
Theorem ParamDialog_apply_result (vk vh vt vb vL vTb vTinf : R) (w : State) :
  exists r w',
    ParamDialog_apply vk vh vt vb vL vTb vTinf w = (inr r, w') /\
    (r = true <-> 0 < vk /\ 0 < vh /\ 0 < vt /\ 0 < vb /\ 0 < vL) /\
    boxes w'
    = (if r then boxes w
       else boxes w
            ++ [warning "Input error"
                  ("Check inputs." ++ String (ascii_of_nat 10)
                     (String (ascii_of_nat 10)
                        "Wszystkie wartości muszą być > 0."))]).
Proof.
  unfold ParamDialog_apply, try_except, mbind, modify, lift, mret, raise.
  destruct (le0 (Rmin vk (Rmin vh (Rmin vt (Rmin vb vL))))) eqn:Hmin.
  - exists false. eexists. split; [reflexivity|]. split; [|reflexivity].
    split; [discriminate|].
    intro Hpos. apply min5_positive in Hpos. congruence.
  - exists true. eexists. split; [reflexivity|]. split; [|reflexivity].
    split; [intros _; apply min5_positive; exact Hmin | reflexivity].
Qed.

(** What [ParamDialog.apply] leaves as it was. *)
Lemma ParamDialog_apply_frame (vk vh vt vb vL vTb vTinf : R) (w : State) :
  exists r w',
    ParamDialog_apply vk vh vt vb vL vTb vTinf w = (inr r, w') /\
    objs w' (params w) = mkFinParams vk vh vt vb vL vTb vTinf /\
    (forall a, a <> params w -> objs w' a = objs w a) /\
    params w' = params w /\ threads w' = threads w /\
    _worker w' = _worker w /\ _last w' = _last w /\
    canvas w' = canvas w /\ queue w' = queue w.
Proof.
  unfold ParamDialog_apply, try_except, mbind, modify, lift, mret, raise.
  assert (Hother : forall a, a <> params w ->
            (if Nat.eqb a (params w)
             then mkFinParams vk vh vt vb vL vTb vTinf else objs w a)
            = objs w a).
  { intros a Ha. destruct (Nat.eqb_spec a (params w)); [contradiction|reflexivity]. }
  destruct (le0 (Rmin vk (Rmin vh (Rmin vt (Rmin vb vL))))); simpl;
    eexists _, _; (split; [reflexivity|]); simpl; rewrite Nat.eqb_refl;
    repeat split; try reflexivity; exact Hother.
Qed.

(** X13.  [ParamDialog.apply] has no rollback: the entered values are in
    the Parameter Model whether it returns [True] or [False]; no other
    object, thread, snapshot or queued signal is touched. *)
Theorem ParamDialog_apply_stores (vk vh vt vb vL vTb vTinf : R) (w : State) :
  exists r w',
    ParamDialog_apply vk vh vt vb vL vTb vTinf w = (inr r, w') /\
    objs w' (params w) = mkFinParams vk vh vt vb vL vTb vTinf /\
    (forall a, a <> params w -> objs w' a = objs w a) /\
    params w' = params w /\ threads w' = threads w /\
    _worker w' = _worker w /\ _last w' = _last w /\
    canvas w' = canvas w /\ queue w' = queue w.
Proof.
  exact (ParamDialog_apply_frame vk vh vt vb vL vTb vTinf w).
Qed.

End Editing.

(** ** The dialog on texts *)

Section DialogTexts.

Variable float_of : string -> Exc R.

(** The assignments run up to the first text that [float] rejects. *)
Lemma assign_texts_run (a : nat) (fields : list (string * string)) (w : State) :
  exists w',
    assign_texts float_of a fields w
    = (match first_error float_of fields with
       | Some e => inl e
       | None => inr tt
       end, w') /\
    objs w' a = apply_changes (parsed_prefix float_of fields) (objs w a) /\
    params w' = params w /\ boxes w' = boxes w.
Proof.
  revert w. induction fields as [|[name txt] rest IH]; intro w.
  - exists w. repeat split; reflexivity.
  - simpl. unfold mbind at 1, lift.
    destruct (float_of txt) as [e|v].
    + exists w. repeat split; reflexivity.
    + unfold mbind at 1, modify.
      destruct (IH (store a (setattr (objs w a) name v) w))
        as (w' & Hrun & Hobj & Hp & Hb).
      exists w'. split; [exact Hrun|].
      simpl in Hobj, Hp, Hb. rewrite Nat.eqb_refl in Hobj.
      repeat split; assumption.
Qed.

(** X14.  [ParamDialog.apply] assigns the seven texts one by one and never
    raises.  When [float] rejects a text, the attributes of the texts
    before it are already overwritten in the Parameter Model and the others
    keep their values; the result is [False] and the warning box carries
    the message of the error.  When all seven are accepted, all are stored,
    and a result [True] comes with no box. *)
Theorem ParamDialog_apply_texts_partial
  (sk sh st sb sL sTb sTinf : string) (w : State) :
  let fields := [("k", sk); ("h", sh); ("t", st); ("b", sb); ("L", sL);
                 ("Tb", sTb); ("Tinf", sTinf)]%string in
  let q := apply_changes (parsed_prefix float_of fields) (objs w (params w)) in
  exists r w',
    ParamDialog_apply_texts float_of sk sh st sb sL sTb sTinf w = (inr r, w') /\
    objs w' (params w) = q /\
    match first_error float_of fields with
    | Some (ValueError msg) =>
        r = false /\
        boxes w'
        = boxes w ++ [warning "Input error"
                        ("Check inputs." ++ String (ascii_of_nat 10)
                           (String (ascii_of_nat 10) msg))]
    | None => r = true -> boxes w' = boxes w
    end.
Proof.
  intros fields q.
  destruct (assign_texts_run (params w) fields w) as (w1 & Hrun & Hobj & Hp & Hb).
  unfold ParamDialog_apply_texts, try_except.
  unfold mbind at 1. unfold mbind at 1. fold fields. rewrite Hrun.
  destruct (first_error float_of fields) as [[msg]|].
  - exists false. eexists. split; [reflexivity|]. simpl.
    split; [exact Hobj|]. split; [reflexivity|]. rewrite Hb. reflexivity.
  - unfold mbind, deref, lift, raise, mret, modify. fold q in Hobj. rewrite Hobj.
    destruct (le0 (Rmin (k q) (Rmin (h q) (Rmin (t q) (Rmin (b q) (L q)))))).
    + exists false. eexists. split; [reflexivity|]. simpl.
      split; [exact Hobj|]. discriminate.
    + exists true. eexists. split; [reflexivity|].
      split; [exact Hobj|]. intros _. exact Hb.
Qed.

End DialogTexts.

(** ** Invariants of the runs *)

Section Runs.

Variable format_exc : PyExc -> string.

(** A property of the initial state that every step keeps holds in every
    state the application reaches. *)
Lemma reachable_ind (Inv : State -> Prop) :
  Inv FinUI_init ->
  (forall a w w', Inv w -> step format_exc a w = inr w' -> Inv w') ->
  forall w, reachable format_exc w -> Inv w.
Proof.
  intros Hinit Hstep w [acts Hsteps].
  revert Hsteps. generalize FinUI_init at 1 as w0, Hinit.
  induction acts as [|a acts IH]; intros w0 Hw0 Hsteps; simpl in Hsteps.
  - injection Hsteps as <-. exact Hw0.
  - destruct (step format_exc a w0) as [e|w1] eqn:Ha; [discriminate Hsteps|].
    exact (IH w1 (Hstep a w0 w1 Hw0 Ha) Hsteps).
Qed.

Lemma apply_cb_canvas (changes : Dict) (w : State) :
  canvas (apply_cb changes w) = canvas w.
Proof.
  revert w. induction changes as [|[name v] rest IH]; intro w; simpl.
  - reflexivity.
  - rewrite IH. reflexivity.
Qed.

Lemma In_update_thread (i : nat) (th a : SolverThread) (ts : list SolverThread) :
  In a (update_thread i th ts) -> a = th \/ In a ts.
Proof.
  revert i. induction ts as [|a' ts IH]; intros [|i] Hin; simpl in *;
    try contradiction.
  - destruct Hin as [<-|Hin]; tauto.
  - destruct Hin as [<-|Hin]; [tauto|].
    destruct (IH i Hin); tauto.
Qed.

(** Every step is one of four kinds for the thread table. *)
Lemma step_thread_table (a : Action) (w w' : State) :
  thread_table_ok w -> step format_exc a w = inr w' -> thread_table_ok w'.
Proof.
  intros (Hp & Hths & Hw) Hstep. destruct a; simpl in Hstep.
  - (* RUN *)
    injection Hstep as <-.
    destruct (worker_running w) eqn:Hrun.
    + unfold on_run. rewrite Hrun. exact (conj Hp (conj Hths Hw)).
    + rewrite (on_run_idle w Hrun). unfold thread_table_ok. simpl.
      split; [exact Hp|]. split.
      * intros th Hin. apply in_app_or in Hin. destruct Hin as [Hin|[<-|[]]].
        -- exact (Hths th Hin).
        -- simpl. split; [exact Hp | discriminate].
      * rewrite length_app. simpl. lia.
  - (* PRESETS *)
    injection Hstep as <-.
    destruct (apply_cb_fields changes w) as (Ht & Hp' & Hw' & _).
    unfold thread_table_ok. rewrite Ht, Hp', Hw'. exact (conj Hp (conj Hths Hw)).
  - (* PARAMETERS *)
    destruct (ParamDialog_apply_frame vk vh vt vb vL vTb vTinf w)
      as (r & w1 & Hrun & _ & _ & Hp' & Ht & Hw' & _).
    rewrite Hrun in Hstep. injection Hstep as <-.
    unfold thread_table_ok. rewrite Ht, Hp', Hw'. exact (conj Hp (conj Hths Hw)).
  - (* CLEAR *)
    injection Hstep as <-. exact (conj Hp (conj Hths Hw)).
  - (* THREAD *)
    unfold thread_step in Hstep.
    destruct (nth_error (threads w) i) as [th|] eqn:Hi;
      [|injection Hstep as <-; exact (conj Hp (conj Hths Hw))].
    destruct (isRunning th) eqn:Hth;
      [|injection Hstep as <-; exact (conj Hp (conj Hths Hw))].
    destruct (SolverThread_run_fields format_exc th w) as (s & Hrun & _).
    rewrite Hrun in Hstep. injection Hstep as <-.
    unfold thread_table_ok. simpl.
    split; [exact Hp|]. split.
    + intros a Hin. apply In_update_thread in Hin. destruct Hin as [->|Hin].
      * simpl. split; [|discriminate].
        exact (proj1 (Hths th (nth_error_In _ _ Hi))).
      * exact (Hths a Hin).
    + rewrite update_thread_length.
      destruct (_worker w); [exact Hw|].
      rewrite Hw in Hi. destruct i; discriminate Hi.
  - (* DELIVER *)
    injection Hstep as <-. unfold deliver.
    destruct (queue w) as [|[[[x T] M]|err] rest]; exact (conj Hp (conj Hths Hw)).
Qed.

(** X15.  In every state the application reaches there is one [FinParams]
    object, which the [FinUI] and every thread refer to; the worker is the
    thread created last; and at most one thread is running. *)
Theorem reachable_thread_table (w : State) :
  reachable format_exc w ->
  thread_table_ok w /\ (length (running_threads w) <= 1)%nat.
Proof.
  intro Hreach. split.
  - apply (reachable_ind thread_table_ok); [| exact step_thread_table | exact Hreach].
    split; [reflexivity|]. split; [intros th Hin; destruct Hin | reflexivity].
  - pose proof (reachable_only_worker_runs format_exc w Hreach) as Inv.
    unfold running_threads.
    destruct (_worker w) as [i|] eqn:Hw.
    + destruct (nth_error (threads w) i) as [th|] eqn:Hi.
      * destruct (isRunning th) eqn:Hth.
        -- rewrite (filter_single (threads w) i th Hi Hth); [simpl; lia|].
           intros j a Hj Ha. pose proof (Inv j a Hj Ha). congruence.
        -- rewrite filter_none; [simpl; lia|].
           intros j a Hj. destruct (isRunning a) eqn:Ha; [|reflexivity].
           pose proof (Inv j a Hj Ha) as Hwj.
           assert (j = i) by congruence. subst j. congruence.
      * rewrite filter_none; [simpl; lia|].
        intros j a Hj. destruct (isRunning a) eqn:Ha; [|reflexivity].
        pose proof (Inv j a Hj Ha) as Hwj.
        assert (j = i) by congruence. subst j. congruence.
    + rewrite filter_none; [simpl; lia|].
      intros j a Hj. destruct (isRunning a) eqn:Ha; [|reflexivity].
      pose proof (Inv j a Hj Ha). congruence.
Qed.

End Runs.

(** ** Results, snapshots and exports *)

Section Results.

Variable format_exc : PyExc -> string.

(** A solved result has the shape of the closed-form solution for positive
    parameters, on 300 samples. *)
Lemma solved_shape (r : SolveResult) :
  solved r ->
  exists q x,
    positive_params q /\ length x = 300%nat /\
    solve_fin q npts_default = inr r /\
    r = (x,
         map (fun th => Tinf q + th)
             (map (fun xi => fin_theta_b q * cosh (fin_m q * (L q - xi))
                             / cosh (fin_m q * L q)) x),
         [("m", fin_m q);
          ("Q", k q * fin_Ac q * fin_m q * fin_theta_b q * tanh (fin_m q * L q));
          ("eta", tanh (fin_m q * L q) / (fin_m q * L q));
          ("eps", (k q * fin_m q / h q) * tanh (fin_m q * L q));
          ("Ac", fin_Ac q); ("P", fin_P q)]%string).
Proof.
  intros [q Hq].
  destruct (positive_params_cases q) as [Hpos|Hneg].
  - destruct (solve_fin_returns q npts_default Hpos) as [x (_ & Hlen & Hsolve)];
      [unfold npts_default; lia|].
    exists q, x. split; [exact Hpos|]. split; [exact Hlen|].
    split; [exact Hq|]. congruence.
  - rewrite (solve_fin_raises q npts_default Hneg) in Hq. discriminate Hq.
Qed.

Lemma step_results_solved (a : Action) (w w' : State) :
  results_solved w -> step format_exc a w = inr w' -> results_solved w'.
Proof.
  intros (Hq & Hl & Hc) Hstep. destruct a; simpl in Hstep.
  - (* RUN *)
    injection Hstep as <-.
    destruct (worker_running w) eqn:Hrun.
    + unfold on_run. rewrite Hrun. exact (conj Hq (conj Hl Hc)).
    + rewrite (on_run_idle w Hrun). exact (conj Hq (conj Hl Hc)).
  - (* PRESETS *)
    injection Hstep as <-.
    destruct (apply_cb_fields changes w) as (_ & _ & _ & Hl' & Hq' & _).
    unfold results_solved. rewrite Hl', Hq', apply_cb_canvas.
    exact (conj Hq (conj Hl Hc)).
  - (* PARAMETERS *)
    destruct (ParamDialog_apply_frame vk vh vt vb vL vTb vTinf w)
      as (r & w1 & Hrun & _ & _ & _ & _ & _ & Hl' & Hc' & Hq').
    rewrite Hrun in Hstep. injection Hstep as <-.
    unfold results_solved. rewrite Hl', Hq', Hc'.
    exact (conj Hq (conj Hl Hc)).
  - (* CLEAR *)
    injection Hstep as <-. split; [exact Hq|]. split; [exact Hl|].
    intros x T Hcanvas. discriminate Hcanvas.
  - (* THREAD *)
    unfold thread_step in Hstep.
    destruct (nth_error (threads w) i) as [th|] eqn:Hi;
      [|injection Hstep as <-; exact (conj Hq (conj Hl Hc))].
    destruct (isRunning th) eqn:Hth;
      [|injection Hstep as <-; exact (conj Hq (conj Hl Hc))].
    destruct (SolverThread_run_fields format_exc th w) as (s & Hrun & Hs).
    rewrite Hrun in Hstep. injection Hstep as <-.
    split; [|exact (conj Hl Hc)].
    intros r Hin. simpl in Hin. apply in_app_or in Hin.
    destruct Hin as [Hin|[Heq|[]]]; [exact (Hq r Hin)|].
    subst s.
    destruct (solve_fin (objs w (st_params th)) npts_default) as [e|r'] eqn:Hsolve;
      [discriminate Hs|].
    injection Hs as <-. exists (objs w (st_params th)). exact Hsolve.
  - (* DELIVER *)
    injection Hstep as <-. unfold deliver.
    destruct (queue w) as [|[[[x T] M]|err] rest] eqn:Hqueue.
    + unfold results_solved. rewrite Hqueue. exact (conj Hq (conj Hl Hc)).
    + split; [|split]; simpl.
      * intros r Hin. apply Hq. right. exact Hin.
      * intros x' T' M' P' Heq. injection Heq as <- <- <- _.
        apply Hq. left. reflexivity.
      * intros x' T' Heq. injection Heq as <- <-. eexists _, _. reflexivity.
    + split; [|exact (conj Hl Hc)].
      intros r Hin. apply Hq. right. exact Hin.
Qed.

Lemma reachable_results_solved (w : State) :
  reachable format_exc w -> results_solved w.
Proof.
  apply (reachable_ind format_exc results_solved); [|exact step_results_solved].
  split; [|split].
  - intros r [].
  - intros x T M P Heq. discriminate Heq.
  - intros x T Heq. discriminate Heq.
Qed.

(** X17.  In every state the application reaches, a stored snapshot holds
    300 positions, 300 temperatures and the six metrics [m], [Q], [eta],
    [eps], [Ac], [P]; and the canvas is empty or shows the curve of that
    snapshot. *)
Theorem reachable_snapshot (w : State) (x T : list R) (M : Metrics) (P : Dict) :
  reachable format_exc w ->
  _last w = Some (x, T, M, P) ->
  length x = 300%nat /\ length T = 300%nat /\
  map fst M = ["m"; "Q"; "eta"; "eps"; "Ac"; "P"]%string /\
  (canvas w = None \/ canvas w = Some (x, T)).
Proof.
  intros Hreach Hlast.
  destruct (reachable_results_solved w Hreach) as (_ & Hl & Hc).
  destruct (solved_shape _ (Hl x T M P Hlast)) as (q & x0 & _ & Hlen & _ & Heq).
  injection Heq as -> -> ->.
  split; [exact Hlen|]. split; [rewrite !length_map; exact Hlen|].
  split; [reflexivity|].
  destruct (canvas w) as [[x' T']|] eqn:Hcanvas; [right|left; reflexivity].
  destruct (Hc x' T' eq_refl) as (M' & P' & Hlast').
  rewrite Hlast in Hlast'. injection Hlast' as <- <- _ _. reflexivity.
Qed.

(** X18.  The guard opens before the completion is handled: when the
    running worker finishes, its signal is queued, no worker is running any
    more, and [on_run] at once starts a new thread with the signal of the
    previous run still undelivered. *)
Theorem guard_idle_before_delivery (w : State) :
  reachable format_exc w -> worker_running w = true ->
  exists i s w',
    _worker w = Some i /\
    thread_step format_exc i w = inr w' /\
    queue w' = queue w ++ [s] /\
    worker_running w' = false /\
    threads (on_run w') = threads w' ++ [mkSolverThread (params w') Running] /\
    queue (on_run w') = queue w ++ [s].
Proof.
  intros Hreach Hrun.
  unfold worker_running in Hrun.
  destruct (_worker w) as [i|] eqn:Hw; [|discriminate Hrun].
  destruct (nth_error (threads w) i) as [th|] eqn:Hi; [|discriminate Hrun].
  destruct (thread_step_running format_exc i th w Hi Hrun) as (s & Hstep & _).
  exists i, s. eexists. split; [reflexivity|]. split; [exact Hstep|].
  split; [reflexivity|].
  assert (Hidle : worker_running
                    (set_threads
                       (update_thread i (mkSolverThread (st_params th) Finished)
                                      (threads w))
                       (set_queue (queue w ++ [s]) w)) = false).
  { unfold worker_running. simpl. rewrite Hw.
    rewrite (update_thread_same i _ th _ Hi). reflexivity. }
  split; [exact Hidle|].
  rewrite (on_run_idle _ Hidle). split; reflexivity.
Qed.

(** X19.  A run in which [solve_fin] raises leaves the snapshot and the
    canvas as they were: the thread emits [failed] with the formatted
    error, and its delivery only shows the critical box with that text. *)
Theorem failed_run_keeps_snapshot
  (i : nat) (th : SolverThread) (w : State) (e : PyExc) :
  nth_error (threads w) i = Some th -> isRunning th = true ->
  queue w = [] ->
  solve_fin (objs w (st_params th)) npts_default = inl e ->
  exists w',
    thread_step format_exc i w = inr w' /\
    queue w' = [failed (format_exc e)] /\
    _last (deliver w') = _last w /\
    canvas (deliver w') = canvas w /\
    queue (deliver w') = [] /\
    boxes (deliver w') = boxes w ++ [critical "Solver error" (format_exc e)].
Proof.
  intros Hi Hth Hq Hraise.
  destruct (thread_step_running format_exc i th w Hi Hth) as (s & Hstep & Hs).
  rewrite Hraise in Hs. subst s.
  rewrite Hq in Hstep. simpl app in Hstep.
  eexists. split; [exact Hstep|].
  repeat split; reflexivity.
Qed.

End Results.

Section Exports.

Variable format_exc : PyExc -> string.

Lemma combine_fst_snd (x T : list R) :
  length x = length T ->
  map fst (combine x T) = x /\ map snd (combine x T) = T.
Proof.
  revert T. induction x as [|a x IH]; intros [|c T] Hlen; simpl in *;
    try discriminate; [split; reflexivity|].
  injection Hlen as Hlen. destruct (IH T Hlen) as [-> ->]. split; reflexivity.
Qed.

(** X20.  In every state the application reaches, exporting a stored
    snapshot to a chosen path raises no [KeyError] and writes: the row of
    the parameters, the four rows of [m], [Q], [eta], [eps], the header
    row, and then one row per sample, 300 of them, whose first cells are
    the positions and whose second cells are the temperatures, in order. *)
Theorem on_export_csv_file
  (w : State) (path : string) (x T : list R) (M : Metrics) (P : Dict) :
  reachable format_exc w ->
  _last w = Some (x, T, M, P) ->
  is_empty path = false ->
  exists vm vQ veta veps,
    lookup "m" M = Some vm /\ lookup "Q" M = Some vQ /\
    lookup "eta" M = Some veta /\ lookup "eps" M = Some veps /\
    on_export_csv path w
    = (w,
       Some (path,
             csv_file
               ([[text "# params"; mapping P];
                 [text "# m [1/m]"; number vm];
                 [text "# Q [W]"; number vQ];
                 [text "# eta [-]"; number veta];
                 [text "# eps [-]"; number veps];
                 [text "x [m]"; text "T [K]"]]
                  ++ map (fun xT => [number (fst xT); number (snd xT)])
                         (combine x T))),
       None) /\
    length (combine x T) = 300%nat /\
    map fst (combine x T) = x /\ map snd (combine x T) = T.
Proof.
  intros Hreach Hlast Hpath.
  destruct (reachable_results_solved format_exc w Hreach) as (_ & Hl & _).
  destruct (solved_shape _ (Hl x T M P Hlast)) as (q & x0 & _ & Hlen & _ & Heq).
  injection Heq as -> -> ->.
  eexists _, _, _, _.
  repeat (split; [reflexivity|]).
  assert (HlenT : length x0
                  = length (map (fun th => Tinf q + th)
                              (map (fun xi => fin_theta_b q
                                              * cosh (fin_m q * (L q - xi))
                                              / cosh (fin_m q * L q)) x0)))
    by (rewrite !length_map; reflexivity).
  split; [|split].
  - unfold on_export_csv. rewrite Hlast, Hpath. reflexivity.
  - rewrite length_combine, <- HlenT, Hlen. reflexivity.
  - apply combine_fst_snd. exact HlenT.
Qed.

(** X21.  CLEAR empties the canvas and keeps the snapshot: after it, both
    exports write exactly what they wrote before it. *)
Theorem on_clear_keeps_last (path : string) (w : State) :
  canvas (on_clear w) = None /\
  _last (on_clear w) = _last w /\
  snd (on_export_png path (on_clear w)) = snd (on_export_png path w) /\
  snd (fst (on_export_csv path (on_clear w)))
  = snd (fst (on_export_csv path w)) /\
  snd (on_export_csv path (on_clear w)) = snd (on_export_csv path w).
Proof.
  split; [reflexivity|]. split; [reflexivity|].
  unfold on_export_png, on_export_csv. simpl _last.
  destruct (_last w) as [[[[x T] M] P]|]; [|repeat split; reflexivity].
  destruct (is_empty path); [repeat split; reflexivity|].
  destruct (csv_rows (x, T, M, P)) as [rows err]. repeat split; reflexivity.
Qed.

End Exports.

(** ** Runs of the extra properties on concrete inputs *)

Lemma solve_fin_small_counts_witness :
  exists M,
    solve_fin FinParams_init 0 = inr ([], [], M) /\
    (exists T0, solve_fin FinParams_init 1 = inr ([0], [T0], M)) /\
    forall n', (0 <= n')%Z ->
      exists x' T',
        solve_fin FinParams_init n' = inr (x', T', M) /\
        length x' = Z.to_nat n' /\ length T' = Z.to_nat n'.
Proof.
  destruct (solve_fin_returns FinParams_init 300) as [x (_ & _ & Hsolve)];
    [unfold positive_params; simpl; lra | lia |].
  eexists.
  exact (solve_fin_small_counts FinParams_init 300 _ _ _ Hsolve).
Defined.

(** The preset "Thick fin" on the defaults. *)
Lemma apply_changes_keeps_positive_witness :
  positive_params (apply_changes preset_thick_fin FinParams_init).
Proof.
  apply (apply_changes_keeps_positive preset_thick_fin FinParams_init).
  - repeat constructor; simpl; lra.
  - unfold positive_params; simpl; lra.
Defined.

(** The state after the first RUN. *)
Lemma reachable_thread_table_witness :
  thread_table_ok (on_run FinUI_init) /\
  (length (running_threads (on_run FinUI_init)) <= 1)%nat.
Proof.
  apply (reachable_thread_table format_exc_last_line (on_run FinUI_init)).
  exists [RUN]. reflexivity.
Defined.

Lemma guard_idle_before_delivery_witness :
  exists i s w',
    _worker (on_run FinUI_init) = Some i /\
    thread_step format_exc_last_line i (on_run FinUI_init) = inr w' /\
    queue w' = [s] /\
    worker_running w' = false /\
    threads (on_run w') = threads w' ++ [mkSolverThread (params w') Running] /\
    queue (on_run w') = [s].
Proof.
  apply (guard_idle_before_delivery format_exc_last_line (on_run FinUI_init)).
  - exists [RUN]. reflexivity.
  - reflexivity.
Defined.

(** RUN after the thickness was set to zero. *)
Lemma failed_run_keeps_snapshot_witness :
  exists w',
    thread_step format_exc_last_line 0
                (on_run (apply_cb [("t"%string, 0)] FinUI_init)) = inr w' /\
    queue w' = [failed "ValueError: Parametry muszą być > 0."] /\
    _last (deliver w') = None /\
    canvas (deliver w') = None /\
    queue (deliver w') = [] /\
    boxes (deliver w')
    = [critical "Solver error" "ValueError: Parametry muszą być > 0."].
Proof.
  apply (failed_run_keeps_snapshot format_exc_last_line 0
           (mkSolverThread 0 Running)
           (on_run (apply_cb [("t"%string, 0)] FinUI_init))
           (ValueError "Parametry muszą być > 0."));
    try reflexivity.
  apply solve_fin_raises. simpl. unfold positive_params. simpl. lra.
Defined.

(** The state after the first run is delivered holds a snapshot. *)
Lemma first_run_delivered :
  exists w x T M P,
    reachable format_exc_last_line w /\ _last w = Some (x, T, M, P).
Proof.
  destruct (solve_fin_returns FinParams_init npts_default)
    as [x (_ & _ & Hsolve)];
    [unfold positive_params; simpl; lra | unfold npts_default; lia |].
  destruct (run_with_edits format_exc_last_line FinUI_init [] [] _
              eq_refl eq_refl Hsolve) as (w3 & Hstep & Hlast).
  exists (deliver w3). eexists _, _, _, _. split; [|exact Hlast].
  exists [RUN; THREAD 0; DELIVER]. simpl.
  simpl in Hstep. rewrite Hstep. reflexivity.
Qed.

Lemma reachable_snapshot_witness :
  exists w x T (M : Metrics),
    length x = 300%nat /\ length T = 300%nat /\
    map fst M = ["m"; "Q"; "eta"; "eps"; "Ac"; "P"]%string /\
    (canvas w = None \/ canvas w = Some (x, T)).
Proof.
  destruct first_run_delivered as (w & x & T & M & P & Hreach & Hlast).
  exists w, x, T, M.
  exact (reachable_snapshot format_exc_last_line w x T M P Hreach Hlast).
Defined.

Lemma on_export_csv_file_witness :
  exists w x T M P vm vQ veta veps,
    lookup "m" M = Some vm /\ lookup "Q" M = Some vQ /\
    lookup "eta" M = Some veta /\ lookup "eps" M = Some veps /\
    on_export_csv "fin_profile.csv" w
    = (w,
       Some ("fin_profile.csv"%string,
             csv_file
               ([[text "# params"; mapping P];
                 [text "# m [1/m]"; number vm];
                 [text "# Q [W]"; number vQ];
                 [text "# eta [-]"; number veta];
                 [text "# eps [-]"; number veps];
                 [text "x [m]"; text "T [K]"]]
                  ++ map (fun xT => [number (fst xT); number (snd xT)])
                         (combine x T))),
       None) /\
    length (combine x T) = 300%nat /\
    map fst (combine x T) = x /\ map snd (combine x T) = T.
Proof.
  destruct first_run_delivered as (w & x & T & M & P & Hreach & Hlast).
  exists w, x, T, M, P.
  exact (on_export_csv_file format_exc_last_line w "fin_profile.csv" x T M P
           Hreach Hlast eq_refl).
Defined.

(** ** The solver in float64: overflow, underflow and rounding *)

Section Float64Runs.

Variables np_cosh np_tanh : float -> float.

(** All parameters positive, yet the product [t * b] underflows to 0 and
    the test of line 47 raises. *)
Example solve_fin64_guard_underflow :
  solve_fin64 np_cosh np_tanh
    (mkFinParams64 15.0 120.0 1e-200 1e-200 0.03 900.0 600.0) 300
  = inl (ValueError64 "Parametry muszą być > 0.").
Proof. reflexivity. Qed.

(** All parameters positive, the test passes, and [k * A_c] underflows to
    0: line 49 raises [ZeroDivisionError]. *)
Example solve_fin64_zero_division :
  solve_fin64 np_cosh np_tanh
    (mkFinParams64 1e-170 120.0 1e-80 1e-80 0.03 900.0 600.0) 300
  = inl (ZeroDivisionError64 "float division by zero").
Proof. reflexivity. Qed.

(** [k = nan] is not positive, and every comparison of line 47 is false:
    the solver returns. *)
Example solve_fin64_nan_passes :
  exists r,
    solve_fin64 np_cosh np_tanh
      (mkFinParams64 nan 120.0 0.003 0.010 0.03 900.0 600.0) 300 = inr r.
Proof. eexists. vm_compute. reflexivity. Qed.

(** C1.  In float64, with positive parameters and [n = 300] for which
    [m * L] is beyond the overflow of [np.cosh] (the defaults with
    [L = 10]), line 52 divides [inf] by [inf]: the temperature at the first
    position, [x = 0], is [nan], where the closed form gives [Tb]. *)
Theorem solve_fin64_profile_overflow :
  (forall x, (711 <=? x)%float = true -> np_cosh x = infinity) ->
  exists x T M,
    solve_fin64 np_cosh np_tanh params64_long 300 = inr (x, T, M) /\
    length x = 300%nat /\ length T = 300%nat /\
    nth 0 x 0%float = 0%float /\
    is_nan (nth 0 T 0%float) = true.
Proof.
  intro Hcosh.
  eexists _, _, _. split; [vm_compute; reflexivity|].
  split; [reflexivity|]. split; [reflexivity|]. split; [reflexivity|].
  cbn [nth]. rewrite !Hcosh by reflexivity. reflexivity.
Qed.

(** C8.  In float64, with the same parameters, for which [Tb > Tinf], the
    first two temperatures are [nan]: the first is not at least the
    second. *)
Theorem solve_fin64_temperatures_overflow :
  (forall x, (711 <=? x)%float = true -> np_cosh x = infinity) ->
  exists x T M,
    solve_fin64 np_cosh np_tanh params64_long 300 = inr (x, T, M) /\
    (Tinf64 params64_long <? Tb64 params64_long)%float = true /\
    is_nan (nth 0 T 0%float) = true /\
    is_nan (nth 1 T 0%float) = true /\
    (nth 1 T 0 <=? nth 0 T 0)%float = false.
Proof.
  intro Hcosh.
  eexists _, _, _. split; [vm_compute; reflexivity|].
  split; [reflexivity|].
  cbn [nth]. rewrite !Hcosh by reflexivity.
  repeat split; reflexivity.
Qed.

(** C9.  In float64, with the positive parameters [h = 1e308],
    [t = b = 10], the product [h * P] of line 49 overflows: [m] is [inf]
    and the efficiency [tanh (inf) / inf] is 0, not above 0. *)
Theorem solve_fin64_eta_overflow :
  np_tanh infinity = 1%float ->
  exists x T M eta,
    solve_fin64 np_cosh np_tanh params64_huge_h 300 = inr (x, T, M) /\
    lookup64 "m" M = Some infinity /\
    lookup64 "eta" M = Some eta /\
    eta = 0%float /\ (0 <? eta)%float = false.
Proof.
  intro Htanh.
  eexists _, _, _, _. split; [vm_compute; reflexivity|].
  split; [reflexivity|]. split; [reflexivity|].
  vm_compute in Htanh. rewrite Htanh. split; reflexivity.
Qed.

End Float64Runs.

Lemma solve_fin64_profile_overflow_witness :
  exists x T M,
    solve_fin64 cosh_overflow_only tanh_limit_only params64_long 300
    = inr (x, T, M) /\
    length x = 300%nat /\ length T = 300%nat /\
    nth 0 x 0%float = 0%float /\
    is_nan (nth 0 T 0%float) = true.
Proof.
  apply (solve_fin64_profile_overflow cosh_overflow_only tanh_limit_only).
  intros x Hx. unfold cosh_overflow_only. rewrite Hx. reflexivity.
Defined.

Lemma solve_fin64_temperatures_overflow_witness :
  exists x T M,
    solve_fin64 cosh_overflow_only tanh_limit_only params64_long 300
    = inr (x, T, M) /\
    (600 <? 900)%float = true /\
    is_nan (nth 0 T 0%float) = true /\
    is_nan (nth 1 T 0%float) = true /\
    (nth 1 T 0 <=? nth 0 T 0)%float = false.
Proof.
  apply (solve_fin64_temperatures_overflow cosh_overflow_only tanh_limit_only).
  intros x Hx. unfold cosh_overflow_only. rewrite Hx. reflexivity.
Defined.

Lemma solve_fin64_eta_overflow_witness :
  exists x T M eta,
    solve_fin64 cosh_overflow_only tanh_limit_only params64_huge_h 300
    = inr (x, T, M) /\
    lookup64 "m" M = Some infinity /\
    lookup64 "eta" M = Some eta /\
    eta = 0%float /\ (0 <? eta)%float = false.
Proof.
  apply (solve_fin64_eta_overflow cosh_overflow_only tanh_limit_only).
  reflexivity.
Defined.

(** C10, as stated, fails in float64.  With the default parameters,
    [m * L] is 2.4979991993593593, where [tanh] is 0.9865609872416615 to
    the nearest float.  The solver returns [Q = 11.089928503119824], while
    [eps * h * Ac * (Tb - Tinf)] is 11.089928503119822. *)
Lemma heat_rate_relation_float_counterexample :
  exists Q eps Ac,
    (forall np_cosh np_tanh,
       np_tanh 2.4979991993593593%float = 0.9865609872416615%float ->
       exists x T M,
         solve_fin64 np_cosh np_tanh FinParams64_init 300 = inr (x, T, M) /\
         lookup64 "Q" M = Some Q /\ lookup64 "eps" M = Some eps /\
         lookup64 "Ac" M = Some Ac) /\
    Q = 11.089928503119824%float /\
    (eps * 120.0 * Ac * (900.0 - 600.0))%float = 11.089928503119822%float /\
    (Q =? eps * 120.0 * Ac * (900.0 - 600.0))%float = false.
Proof.
  exists 11.089928503119824%float, 10.26845231770354%float, 3e-05%float.
  split; [|repeat split; reflexivity].
  intros np_cosh np_tanh Htanh.
  eexists _, _, _. split; [vm_compute; reflexivity|].
  vm_compute. rewrite !Htanh.
  repeat split; reflexivity.
Qed.
